(** * Caption-job pipeline: a shallow embedding of
    [services/caption_video_old_2.py] and the properties of its
    fingerprinting, validation, subtitle expansion and orchestration.

    Conventions of the embedding.
    - A Python [str] is a Rocq [string]; each [ascii] stands for one code
      point below 256 (Latin-1), which is where Python's [str.isspace],
      the regular-expression classes and [repr] are spelled out below.
    - A Python exception is a value of [exn]; a call that may raise returns
      a [result].
    - A Python [dict] is an association list with unique keys in insertion
      order ([dict_set] keeps the position of a key that is already there).
    - The working directory is a finite map from paths to file contents.
    - The collaborators that live outside this file (download, HTTP fetch,
      media probe, renderer, upload, MD5, the JSON reader, the listing of the
      font directory) are the fields of a [World].
    - Left out: [match_fonts] (diagnostic output when the module is loaded),
      [ProgressTracker] (a lock around the frame count that the renderer's
      callback updates) and [batch_process_captioning] (one call of
      [multiprocessing.Pool.map]). *)

From Stdlib Require Import ZArith QArith Qround List Ascii String Bool Lia DecimalString.
From stdpp Require Import base option list sorting gmap strings.

Local Open Scope Z_scope.

(* ================================================================== *)
(** * Exceptions and results *)

Inductive exn : Type :=
| ValueError
| TypeError
| KeyError
| ZeroDivisionError
| OSError
| RequestException
| FfmpegError (stderr : option string)
| OtherError (name : string).

Inductive result (A : Type) : Type :=
| Ok (a : A)
| Raise (e : exn).
Arguments Ok {A} a.
Arguments Raise {A} e.

Definition result_bind {A B} (f : A → result B) (m : result A) : result B :=
  match m with
  | Ok a => f a
  | Raise e => Raise e
  end.

#[global] Instance result_mret : MRet result := @Ok.
#[global] Instance result_mbind : MBind result := @result_bind.

Fixpoint mapM_result {A B} (f : A → result B) (l : list A) : result (list B) :=
  match l with
  | [] => Ok []
  | x :: l' =>
      match f x with
      | Ok y =>
          match mapM_result f l' with
          | Ok ys => Ok (y :: ys)
          | Raise e => Raise e
          end
      | Raise e => Raise e
      end
  end.

(* ================================================================== *)
(** * Python strings *)

Definition nl : string := String "010"%char EmptyString.
Definition dquote : string := String "034"%char EmptyString.
Definition squote : string := String "039"%char EmptyString.
Definition backslash : string := String "092"%char EmptyString.

Definition code (c : ascii) : Z := Z.of_N (N_of_ascii c).

(** [str.isspace] on one code point below 256; the class [\s] of [re] on a
    [str] pattern is the same set. *)
Definition isspace (c : ascii) : bool :=
  let n := code c in
  ((9 <=? n) && (n <=? 13)) || ((28 <=? n) && (n <=? 32))
  || (n =? 133) || (n =? 160).

Definition isdigit (c : ascii) : bool :=
  let n := code c in (48 <=? n) && (n <=? 57).

Definition digit_value (c : ascii) : Z := code c - 48.

Fixpoint lstrip (s : string) : string :=
  match s with
  | String c s' => if isspace c then lstrip s' else s
  | EmptyString => EmptyString
  end.

Definition rstrip (s : string) : string :=
  String.rev (lstrip (String.rev s)).

(** [s.strip()] *)
Definition strip (s : string) : string := rstrip (lstrip s).

(** [s.startswith(p)] *)
Definition startswith (s p : string) : bool := String.prefix p s.

Fixpoint drop_string (n : nat) (s : string) : string :=
  match n, s with
  | S k, String _ s' => drop_string k s'
  | _, _ => s
  end.

(** [s.endswith(p)] *)
Definition endswith (s p : string) : bool :=
  (Nat.leb (String.length p) (String.length s))
  && String.eqb (drop_string (String.length s - String.length p) s) p.

(** [p in s] for strings. *)
Fixpoint contains (p s : string) : bool :=
  String.prefix p s ||
  match s with
  | String _ s' => contains p s'
  | EmptyString => false
  end.

(** [s.split(sep)] for a non-empty separator: the pieces between the
    occurrences of [sep], scanned from the left without overlap.  [skip]
    counts the characters of a separator just found that are still to be
    passed over; [acc] is the current piece, reversed. *)
Fixpoint split_go (sep : string) (skip : nat) (acc : string) (s : string)
  : list string :=
  match s with
  | EmptyString => [String.rev acc]
  | String c s' =>
      match skip with
      | S k => split_go sep k acc s'
      | O =>
          if String.prefix sep s
          then String.rev acc :: split_go sep (String.length sep - 1) EmptyString s'
          else split_go sep O (String c acc) s'
      end
  end.

Definition str_split (s sep : string) : list string := split_go sep O EmptyString s.

(** [sep.join(parts)] *)
Fixpoint str_join (sep : string) (parts : list string) : string :=
  match parts with
  | [] => EmptyString
  | [p] => p
  | p :: rest => p +:+ sep +:+ str_join sep rest
  end.

(** [re.findall(r'\S+', s)]: the maximal runs of non-space characters. *)
Fixpoint findall_nonspace_go (cur : option string) (s : string) : list string :=
  match s with
  | EmptyString => option_list (String.rev <$> cur)
  | String c s' =>
      if isspace c
      then option_list (String.rev <$> cur) ++ findall_nonspace_go None s'
      else findall_nonspace_go
             (Some (String c (default EmptyString cur))) s'
  end.

Definition findall_nonspace (s : string) : list string :=
  findall_nonspace_go None s.

(** [str(n)] for an [int]. *)
Definition str_of_Z (n : Z) : string := NilZero.string_of_int (Z.to_int n).

(** [n] written with at least [width] digits, zero padded ([%02d], [%06d]);
    [n] is not negative where this is used. *)
Fixpoint zeros (k : nat) : string :=
  match k with O => EmptyString | S k' => String "0"%char (zeros k') end.

Definition zero_pad (width : nat) (n : Z) : string :=
  let d := str_of_Z n in
  zeros (width - String.length d) +:+ d.

Fixpoint take_string (n : nat) (s : string) : string :=
  match n, s with
  | S k, String c s' => String c (take_string k s')
  | _, _ => EmptyString
  end.

(** [s[:-3]] *)
Definition drop_last3 (s : string) : string :=
  take_string (String.length s - 3) s.

(** Two hexadecimal digits, lower case. *)
Definition hex_digit (n : Z) : ascii :=
  ascii_of_N (Z.to_N (if n <? 10 then 48 + n else 87 + n)).

Definition hex2 (c : ascii) : string :=
  String (hex_digit (code c / 16)) (String (hex_digit (code c mod 16)) EmptyString).

(* ================================================================== *)
(** * Python values and dictionaries *)

(** The values an option can carry (what a decoded request body holds).
    A [float] is kept as the text [repr] gives for it. *)
#[warnings="-register-all"]
Inductive value : Type :=
| VNone
| VBool (b : bool)
| VInt (n : Z)
| VFloat (repr : string)
| VStr (s : string)
| VList (l : list value)
| VDict (d : list (string * value)).

Definition dict (V : Type) : Type := list (string * V).

(** [d.get(k)] *)
Fixpoint dict_get {V} (k : string) (d : dict V) : option V :=
  match d with
  | [] => None
  | (k', v) :: d' => if String.eqb k k' then Some v else dict_get k d'
  end.

(** [k in d] *)
Definition dict_mem {V} (k : string) (d : dict V) : bool :=
  match dict_get k d with Some _ => true | None => false end.

(** [d[k] = v]: a key that is present keeps its place. *)
Fixpoint dict_set {V} (k : string) (v : V) (d : dict V) : dict V :=
  match d with
  | [] => [(k, v)]
  | (k', v') :: d' =>
      if String.eqb k k' then (k', v) :: d' else (k', v') :: dict_set k v d'
  end.

Definition dict_keys {V} (d : dict V) : list string := d.*1.
Definition dict_values {V} (d : dict V) : list V := d.*2.

(** [d.get(k, default)] *)
Definition dict_get_default {V} (k : string) (dflt : V) (d : dict V) : V :=
  default dflt (dict_get k d).

(** Truth value of a Python object ([if x], [not x]). *)
Definition float_is_zero (r : string) : bool :=
  String.eqb r "0.0" || String.eqb r "-0.0".

Definition truthy (v : value) : bool :=
  match v with
  | VNone => false
  | VBool b => b
  | VInt n => negb (n =? 0)
  | VFloat r => negb (float_is_zero r)
  | VStr s => negb (String.eqb s EmptyString)
  | VList l => match l with [] => false | _ => true end
  | VDict d => match d with [] => false | _ => true end
  end.

(** [isinstance(v, int)]: [bool] is a subclass of [int]. *)
Definition isinstance_int (v : value) : bool :=
  match v with
  | VInt _ | VBool _ => true
  | _ => false
  end.

(** The integer an [int] instance stands for in a comparison. *)
Definition int_of_value (v : value) : option Z :=
  match v with
  | VInt n => Some n
  | VBool b => Some (if b then 1 else 0)
  | _ => None
  end.

(** [v == s] for a [str] [s]: only an equal [str] is equal to it. *)
Definition value_eq_str (v : value) (s : string) : bool :=
  match v with
  | VStr t => String.eqb t s
  | _ => false
  end.

(** [v in names] for a list of [str]. *)
Definition value_in_strs (v : value) (names : list string) : bool :=
  existsb (value_eq_str v) names.

(** ** [repr] and [str] *)

(** A code point that [repr] copies as it is. *)
Definition isprintable (c : ascii) : bool :=
  let n := code c in
  ((32 <=? n) && (n <=? 126)) || ((161 <=? n) && negb (n =? 173)).

Definition repr_char (quote : ascii) (c : ascii) : string :=
  if Ascii.eqb c quote then backslash +:+ String c EmptyString
  else if Ascii.eqb c "092" then backslash +:+ backslash
  else if Ascii.eqb c "009" then backslash +:+ "t"
  else if Ascii.eqb c "010" then backslash +:+ "n"
  else if Ascii.eqb c "013" then backslash +:+ "r"
  else if isprintable c then String c EmptyString
  else backslash +:+ "x" +:+ hex2 c.

Fixpoint concat_map_string (f : ascii → string) (s : string) : string :=
  match s with
  | EmptyString => EmptyString
  | String c s' => f c +:+ concat_map_string f s'
  end.

(** [repr(s)] for a [str]: single quotes, unless the text has a single
    quote and no double quote. *)
Definition repr_str (s : string) : string :=
  let q : ascii :=
    if contains squote s && negb (contains dquote s)
    then "034"%char else "039"%char in
  String q (concat_map_string (repr_char q) s) +:+ String q EmptyString.

Fixpoint repr_value (v : value) : string :=
  match v with
  | VNone => "None"
  | VBool b => if b then "True" else "False"
  | VInt n => str_of_Z n
  | VFloat r => r
  | VStr s => repr_str s
  | VList l => "[" +:+ str_join ", " (map repr_value l) +:+ "]"
  | VDict d =>
      "{" +:+ str_join ", "
                (map (λ kv, match kv with
                            | (k, x) => repr_str k +:+ ": " +:+ repr_value x
                            end) d) +:+ "}"
  end.

(** [str(v)], what an f-string puts for [{v}]. *)
Definition str_value (v : value) : string :=
  match v with
  | VStr s => s
  | _ => repr_value v
  end.

(** ** [json.dumps] *)

(** One character inside a JSON string with [ensure_ascii] (the default). *)
Definition json_escape_char (c : ascii) : string :=
  if Ascii.eqb c "034" then backslash +:+ dquote
  else if Ascii.eqb c "092" then backslash +:+ backslash
  else if Ascii.eqb c "010" then backslash +:+ "n"
  else if Ascii.eqb c "013" then backslash +:+ "r"
  else if Ascii.eqb c "009" then backslash +:+ "t"
  else if Ascii.eqb c "012" then backslash +:+ "f"
  else if Ascii.eqb c "008" then backslash +:+ "b"
  else if (32 <=? code c) && (code c <=? 126) then String c EmptyString
  else backslash +:+ "u00" +:+ hex2 c.

Definition json_string (s : string) : string :=
  dquote +:+ concat_map_string json_escape_char s +:+ dquote.

Definition json_float (r : string) : string :=
  if String.eqb r "nan" then "NaN"
  else if String.eqb r "inf" then "Infinity"
  else if String.eqb r "-inf" then "-Infinity"
  else r.

(** Insertion of one item into a list sorted by key, before the items whose
    key is not smaller: with the items of a list put in from its end
    ([sorted_items]) the sort is stable, as [sorted] is. *)
Fixpoint insert_by_key {V} (kv : string * V) (l : list (string * V))
  : list (string * V) :=
  match l with
  | [] => [kv]
  | kv' :: l' =>
      if String.ltb kv'.1 kv.1 then kv' :: insert_by_key kv l'
      else kv :: l
  end.

(** [sorted(d.items())] for a dictionary with [str] keys: the keys are
    distinct, so the order of the pairs is the order of the keys. *)
Definition sorted_items {V} (d : dict V) : list (string * V) :=
  foldr insert_by_key [] d.

(** [json.dumps(v, sort_keys=sk)] with the default separators.  The items of
    a dictionary are encoded first and put in order after: the order looks
    at the keys alone. *)
Fixpoint json_dumps (sk : bool) (v : value) : string :=
  match v with
  | VNone => "null"
  | VBool b => if b then "true" else "false"
  | VInt n => str_of_Z n
  | VFloat r => json_float r
  | VStr s => json_string s
  | VList l => "[" +:+ str_join ", " (map (json_dumps sk) l) +:+ "]"
  | VDict d =>
      let encoded : dict string :=
        map (λ kv, match kv with (k, x) => (k, json_dumps sk x) end) d in
      let items := if sk then sorted_items encoded else encoded in
      "{" +:+ str_join ", "
                (map (λ kv : string * string, json_string kv.1 +:+ ": " +:+ kv.2)
                     items) +:+ "}"
  end.

(* ================================================================== *)
(** * Timestamps: [datetime.strptime], [timedelta], [strftime] *)

(** A [datetime] on or near the default date 1900-01-01 is the number of
    microseconds since its midnight; a [timedelta] is a number of
    microseconds. *)
Definition datetime : Type := Z.
Definition timedelta : Type := Z.

(** ** The regular expression of the format [%H:%M:%S,%f]

    [_strptime] turns the format into
    [(?P<H>2[0-3]|[0-1]\d|\d):(?P<M>[0-5]\d|\d):(?P<S>6[0-1]|[0-5]\d|\d),(?P<f>[0-9]{1,6})]
    and matches it at the start of the text.  The matcher below is that
    expression with its ordered alternatives; the rest of the expression is
    the continuation [k], so an alternative whose continuation fails gives
    way to the next one. *)
Section Regex.
Context {A : Type}.

Definition re_alt (x y : option A) : option A :=
  match x with Some a => Some a | None => y end.

Definition re_class (p : ascii → bool) (s : string)
    (k : ascii → string → option A) : option A :=
  match s with
  | String c s' => if p c then k c s' else None
  | EmptyString => None
  end.

Definition re_lit (c : ascii) (s : string) (k : string → option A) : option A :=
  re_class (Ascii.eqb c) s (λ _ s', k s').

Definition in_range (lo hi : ascii) (c : ascii) : bool :=
  (code lo <=? code c) && (code c <=? code hi).

Definition re_two (p1 p2 : ascii → bool) (s : string)
    (k : string → string → option A) : option A :=
  re_class p1 s (λ c1 s1,
    re_class p2 s1 (λ c2 s2, k (String c1 (String c2 EmptyString)) s2)).

Definition re_one (p : ascii → bool) (s : string)
    (k : string → string → option A) : option A :=
  re_class p s (λ c s1, k (String c EmptyString) s1).

(** [2[0-3]|[0-1]\d|\d] *)
Definition re_H (s : string) (k : string → string → option A) : option A :=
  re_alt (re_two (Ascii.eqb "2") (in_range "0" "3") s k)
    (re_alt (re_two (in_range "0" "1") isdigit s k)
            (re_one isdigit s k)).

(** [[0-5]\d|\d] *)
Definition re_M (s : string) (k : string → string → option A) : option A :=
  re_alt (re_two (in_range "0" "5") isdigit s k) (re_one isdigit s k).

(** [6[0-1]|[0-5]\d|\d] *)
Definition re_S (s : string) (k : string → string → option A) : option A :=
  re_alt (re_two (Ascii.eqb "6") (in_range "0" "1") s k)
    (re_alt (re_two (in_range "0" "5") isdigit s k)
            (re_one isdigit s k)).

(** Up to [n] digits, as many as there are (a greedy [{0,n}]). *)
Fixpoint re_digits_upto (n : nat) (s : string)
    (k : string → string → option A) : option A :=
  match n with
  | O => k EmptyString s
  | S m =>
      re_alt (re_class isdigit s (λ c s1,
                re_digits_upto m s1 (λ t s2, k (String c t) s2)))
             (k EmptyString s)
  end.

(** [[0-9]{1,6}] *)
Definition re_f (s : string) (k : string → string → option A) : option A :=
  re_class isdigit s (λ c s1,
    re_digits_upto 5 s1 (λ t s2, k (String c t) s2)).
End Regex.

(** The groups H, M, S, f of a match and the text left after it. *)
Definition time_regex_match (s : string)
  : option (string * string * string * string * string) :=
  re_H s (λ h s1, re_lit ":" s1 (λ s2,
  re_M s2 (λ m s3, re_lit ":" s3 (λ s4,
  re_S s4 (λ sec s5, re_lit "," s5 (λ s6,
  re_f s6 (λ f rest, Some (h, m, sec, f, rest)))))))).

(** [int(text)] for a run of decimal digits. *)
Definition int_of_digits (s : string) : Z :=
  fold_left (λ acc c, 10 * acc + digit_value c) (list_ascii_of_string s) 0.

Definition us_per_second : Z := 1000000.
Definition us_per_day : Z := 86400 * us_per_second.

(** [datetime.strptime(s, '%H:%M:%S,%f')]: [ValueError] when the text does
    not match the format, when text is left after the match, and when the
    seconds are 60 or 61 (which the expression lets through and the
    [datetime] constructor refuses). *)
Definition strptime (s : string) : result datetime :=
  match time_regex_match s with
  | None => Raise ValueError
  | Some (h, m, sec, f, rest) =>
      if negb (String.eqb rest EmptyString) then Raise ValueError
      else
        let hour := int_of_digits h in
        let minute := int_of_digits m in
        let second := int_of_digits sec in
        let fraction :=
          int_of_digits (f +:+ zeros (6 - String.length f)) in
        if 59 <? second then Raise ValueError
        else Ok (((hour * 60 + minute) * 60 + second) * us_per_second + fraction)
  end.

(** [d.strftime('%H:%M:%S,%f')] *)
Definition strftime (d : datetime) : string :=
  let t := d mod us_per_day in
  let secs := t / us_per_second in
  zero_pad 2 (secs / 3600) +:+ ":" +:+ zero_pad 2 (secs / 60 mod 60) +:+ ":"
  +:+ zero_pad 2 (secs mod 60) +:+ "," +:+ zero_pad 6 (t mod us_per_second).

(** ** Durations

    Python computes the durations in binary floating point; here a [float]
    duration is the rational number it approximates, which can differ from
    the [float] in the last digit ([int(0.29 * 100)] is 28 in floating point
    and 29 here).  On every cue line the second [strptime] of
    [process_line] raises before a duration is computed (lemma
    [process_line_cue_raises]), so no result of [process_subtitle_content]
    depends on this choice, and nothing below is stated about the numbers
    of an expanded cue. *)

(** [td.total_seconds()] *)
Definition total_seconds (td : timedelta) : Q := inject_Z td / inject_Z us_per_second.

(** [x / n] for a [float] and the length of a list. *)
Definition truediv (x : Q) (n : nat) : result Q :=
  match n with
  | O => Raise ZeroDivisionError
  | S _ => Ok (x / inject_Z (Z.of_nat n))%Q
  end.

(** Rounding to the nearest integer, a tie to the even one. *)
Definition round_half_even (x : Q) : Z :=
  let f := Qfloor x in
  match (x - inject_Z f ?= 1 # 2)%Q with
  | Lt => f
  | Gt => f + 1
  | Eq => if Z.even f then f else f + 1
  end.

(** [timedelta(seconds=x)] *)
Definition timedelta_seconds (x : Q) : timedelta :=
  round_half_even (x * inject_Z us_per_second).

(** [int(x)]: towards zero. *)
Definition int_of_float (x : Q) : Z :=
  if Qle_bool 0 x then Qfloor x else Qceiling x.

(* ================================================================== *)
(** * [process_subtitle_content] *)

(** The three lines appended for the [i]-th word of a cue. *)
Definition word_lines (start_time : datetime) (word_duration : Q)
    (i : nat) (word : string) : list string :=
  let word_start :=
    start_time + timedelta_seconds (inject_Z (Z.of_nat i) * word_duration) in
  let word_end := word_start + timedelta_seconds word_duration in
  [ drop_last3 (strftime word_start) +:+ " --> " +:+ drop_last3 (strftime word_end);
    "{\highlight}{\k" +:+ str_of_Z (int_of_float (word_duration * 100)) +:+ "}"
      +:+ word;
    EmptyString ].

(** The part of the loop body after the two timestamps are parsed. *)
Definition expand_cue (start_time end_time : datetime) (text : string)
  : result (list string) :=
  let words := findall_nonspace text in
  let total_duration := total_seconds (end_time - start_time) in
  word_duration ← truediv total_duration (length words);
  Ok (concat (imap (word_lines start_time word_duration) words)).

(** [line.strip() and '-->' in line] *)
Definition is_cue_line (line : string) : bool :=
  negb (String.eqb (strip line) EmptyString) && contains "-->" line.

(** [','.join(text_part.split(',')[1:]).strip()]: the text the loop takes
    for the cue, what follows the first comma after the arrow. *)
Definition cue_text (text_part : string) : string :=
  strip (str_join "," (tl (str_split text_part ","))).

(** One pass of the loop over the lines: the lines it appends. *)
Definition process_line (line : string) : result (list string) :=
  if is_cue_line line then
    match str_split line "-->" with
    | [time_part; text_part] =>
        start_time ← strptime (strip time_part);
        end_time ← strptime (strip (hd EmptyString (str_split text_part ",")));
        let text := cue_text text_part in
        expand_cue start_time end_time text
    | _ => Raise ValueError
    end
  else Ok [line].

Definition process_subtitle_content (content : string)
    (one_word_highlight : value) : result string :=
  if negb (truthy one_word_highlight) then Ok content
  else
    processed_lines ← mapM_result process_line (str_split content nl);
    Ok (str_join nl (concat processed_lines)).

(* ================================================================== *)
(** * Paths *)

Definition STORAGE_PATH : string := "/tmp/".
Definition FONTS_DIR : string := "/usr/share/fonts/custom".

(** [os.path.join(a, b)] on POSIX. *)
Definition path_join (a b : string) : string :=
  if startswith b "/" then b
  else if String.eqb a EmptyString || endswith a "/" then a +:+ b
  else a +:+ "/" +:+ b.

(** [s.rfind(c)], -1 when [c] is not in [s]. *)
Fixpoint rfind_go (c : ascii) (s : string) (i : Z) (found : Z) : Z :=
  match s with
  | EmptyString => found
  | String c' s' => rfind_go c s' (i + 1) (if Ascii.eqb c c' then i else found)
  end.

Definition rfind (c : ascii) (s : string) : Z := rfind_go c s 0 (-1).

Fixpoint all_dots (s : string) : bool :=
  match s with
  | EmptyString => true
  | String c s' => Ascii.eqb c "." && all_dots s'
  end.

(** [os.path.splitext(p)[0]]: the text before the last dot of the last
    component, unless only dots stand before it in that component. *)
Definition splitext_root (p : string) : string :=
  let sepIndex := rfind "/" p in
  let dotIndex := rfind "." p in
  if sepIndex <? dotIndex then
    let before :=
      take_string (Z.to_nat (dotIndex - sepIndex - 1))
                  (drop_string (Z.to_nat (sepIndex + 1)) p) in
    if all_dots before then p else take_string (Z.to_nat dotIndex) p
  else p.

(* ================================================================== *)
(** * The world outside this file *)

Abbreviation files := (gmap string string).

(** What [requests.get] answers, once [raise_for_status] has let it pass. *)
Record response : Type := {
  resp_content : string;   (* [response.content], the bytes *)
  resp_text : string;      (* [response.text] *)
}.

Inductive os_op : Type := OpenRead | OpenWrite | Remove.

Record World : Type := {
  (** [os.listdir(FONTS_DIR)] when the module is loaded. *)
  listdir_fonts : list string;
  (** [GCP_BUCKET_NAME] of [services.gcp_toolkit]. *)
  GCP_BUCKET_NAME : string;
  (** [hashlib.md5(data).hexdigest()] *)
  md5_hexdigest : string → string;
  (** [json.load] on the text of a file. *)
  json_load : string → result value;
  (** [download_file(url, directory)]: the path it stored the file at and
      what it stored. *)
  download_file : string → string → result (string * string);
  (** [requests.get(url)] followed by [raise_for_status()]. *)
  requests_get : string → result response;
  (** [int(ffmpeg.probe(path)['streams'][0]['nb_frames'])] *)
  probe_nb_frames : files → string → result Z;
  (** The renderer run on (input, output, video filter), with the total
      frame count its progress callback divides by: what it writes to the
      output path. *)
  ffmpeg_run : files → string → string → string → Z → result string;
  (** [upload_to_gcs(path, bucket)] *)
  upload_to_gcs : files → string → string → result string;
  (** The operating system refusing an operation on a path (permissions, a
      directory in the way). *)
  os_refuses : os_op → string → bool;
  (** A write of a text to a path that fails after the file was opened (a
      full disk, a size limit): what it leaves in the file.  [None] when
      the write goes through. *)
  write_fails : string → string → option string;
}.

(* ================================================================== *)
(** * Font catalog *)

(** The loop that fills [FONT_PATHS]. *)
Definition FONT_PATHS (w : World) : dict string :=
  fold_left
    (λ acc font_file,
       if endswith font_file ".ttf" || endswith font_file ".TTF"
       then dict_set (splitext_root font_file) (path_join FONTS_DIR font_file) acc
       else acc)
    (listdir_fonts w) [].

Definition ACCEPTABLE_FONTS (w : World) : list string := dict_keys (FONT_PATHS w).

(* ================================================================== *)
(** * Style lines *)

Definition opt (options : dict value) (k : string) (dflt : value) : value :=
  dict_get_default k dflt options.

Definition generate_style_line (options : dict value) : string :=
  let style_options : dict value :=
    [ ("Name", VStr "Default");
      ("Fontname", opt options "font_name" (VStr "Arial"));
      ("Fontsize", opt options "font_size" (VInt 24));
      ("PrimaryColour", opt options "primary_color" (VStr "&H00FFFFFF"));
      ("OutlineColour", opt options "outline_color" (VStr "&H00000000"));
      ("BackColour", opt options "back_color" (VStr "&H00000000"));
      ("Bold", opt options "bold" (VInt 0));
      ("Italic", opt options "italic" (VInt 0));
      ("Underline", opt options "underline" (VInt 0));
      ("StrikeOut", opt options "strikeout" (VInt 0));
      ("ScaleX", VInt 100);
      ("ScaleY", VInt 100);
      ("Spacing", VInt 0);
      ("Angle", VInt 0);
      ("BorderStyle", VInt 1);
      ("Outline", opt options "outline" (VInt 1));
      ("Shadow", opt options "shadow" (VInt 0));
      ("Alignment", opt options "alignment" (VInt 2));
      ("MarginL", opt options "margin_l" (VInt 10));
      ("MarginR", opt options "margin_r" (VInt 10));
      ("MarginV", opt options "margin_v" (VInt 10));
      ("Encoding", opt options "encoding" (VInt 1));
      ("OneWordHighlight", opt options "one_word_highlight" (VBool false)) ] in
  "Style: " +:+ str_join "," (map str_value (dict_values style_options)).

(** The header put before the cues of the ASS dialect. *)
Definition ass_caption_style (style_string : string) : string :=
  nl +:+ "[Script Info]" +:+ nl
  +:+ "Title: Highlight Current Word" +:+ nl
  +:+ "ScriptType: v4.00+" +:+ nl
  +:+ "[V4+ Styles]" +:+ nl
  +:+ "Format: Name, Fontname, Fontsize, PrimaryColour, OutlineColour, BackColour, Bold, Italic, Underline, StrikeOut, ScaleX, ScaleY, Spacing, Angle, BorderStyle, Outline, Shadow, Alignment, MarginL, MarginR, MarginV, Encoding" +:+ nl
  +:+ style_string +:+ nl
  +:+ "[Events]" +:+ nl
  +:+ "Format: Layer, Start, End, Style, Name, MarginL, MarginR, MarginV, Effect, Text" +:+ nl.

(** The [force_style] list of the other dialects. *)
Definition force_style_options (options : dict value) (font_name : value)
    (one_word_highlight : value) : dict value :=
  [ ("FontName", font_name);
    ("FontSize", opt options "font_size" (VInt 24));
    ("PrimaryColour", opt options "primary_color" (VStr "&H00FFFFFF"));
    ("SecondaryColour", opt options "secondary_color" (VStr "&H00000000"));
    ("OutlineColour", opt options "outline_color" (VStr "&H00000000"));
    ("BackColour", opt options "back_color" (VStr "&H00000000"));
    ("Bold", opt options "bold" (VInt 0));
    ("Italic", opt options "italic" (VInt 0));
    ("Underline", opt options "underline" (VInt 0));
    ("StrikeOut", opt options "strikeout" (VInt 0));
    ("Alignment", opt options "alignment" (VInt 2));
    ("MarginV", opt options "margin_v" (VInt 10));
    ("MarginL", opt options "margin_l" (VInt 10));
    ("MarginR", opt options "margin_r" (VInt 10));
    ("Outline", opt options "outline" (VInt 1));
    ("Shadow", opt options "shadow" (VInt 0));
    ("Blur", opt options "blur" (VInt 0));
    ("BorderStyle", opt options "border_style" (VInt 1));
    ("Encoding", opt options "encoding" (VInt 1));
    ("Spacing", opt options "spacing" (VInt 0));
    ("Angle", opt options "angle" (VInt 0));
    ("UpperCase", opt options "uppercase" (VInt 0));
    ("Highlight", if truthy one_word_highlight then VInt 1 else VNone) ].

Definition is_none (v : value) : bool :=
  match v with VNone => true | _ => false end.

Definition build_subtitle_filter (options : dict value) (subtitle_extension : string)
    (srt_path : string) (font_name : value) (one_word_highlight : value) : string :=
  if String.eqb subtitle_extension ".ass" then
    if truthy one_word_highlight
    then "ass='" +:+ srt_path +:+ "',subtitles='" +:+ srt_path
         +:+ "':force_style='Highlight=1'"
    else "subtitles='" +:+ srt_path +:+ "'"
  else
    let style_options := force_style_options options font_name one_word_highlight in
    "subtitles=" +:+ srt_path +:+ ":force_style='"
    +:+ str_join ","
          (map (λ kv : string * value, kv.1 +:+ "=" +:+ str_value kv.2)
               (filter (λ kv : string * value, is_none kv.2 = false) style_options))
    +:+ "'".

(* ================================================================== *)
(** * Validation, fingerprint, option list *)

Definition required_options : list string :=
  ["font_name"; "font_size"; "primary_color"].

Definition validate_options (w : World) (options : dict value) : result unit :=
  if negb (forallb (λ option, dict_mem option options) required_options)
  then Raise ValueError
  else if negb (value_in_strs (opt options "font_name" VNone) (ACCEPTABLE_FONTS w))
  then Raise ValueError
  else
    let font_size := opt options "font_size" VNone in
    if negb (isinstance_int font_size)
       || match int_of_value font_size with
          | Some n => n <=? 0
          | None => false
          end
    then Raise ValueError
    else Ok ().

Definition job_data (file_url caption_srt caption_type : string)
    (options : dict value) : value :=
  VDict [ ("file_url", VStr file_url);
          ("caption_srt", VStr caption_srt);
          ("caption_type", VStr caption_type);
          ("options", VDict options) ].

Definition get_job_hash (w : World) (file_url caption_srt caption_type : string)
    (options : dict value) : string :=
  md5_hexdigest w (json_dumps true (job_data file_url caption_srt caption_type options)).

(** [{item['option']: item['value'] for item in options}] *)
Definition convert_array_to_collection (options : list (string * value))
  : dict value :=
  fold_left (λ acc item, dict_set item.1 item.2 acc) options [].

(* ================================================================== *)
(** * Effects: the working directory and the calls made *)

(** What a run leaves behind besides files.  Of the logger's messages only
    the warning is kept; the others carry nothing the run depends on. *)
Inductive event : Type :=
| EvDownload (url dir : string)
| EvHttpGet (url : string)
| EvProbe (path : string)
| EvRender (input output vf : string)
| EvUpload (path bucket : string)
| EvLogWarning (msg : string).

(** A computation over the working directory: its outcome, the files after
    it and the events it emitted, in order.  The files and events of a
    computation that raises are kept. *)
Definition M (A : Type) : Type := files → result A * files * list event.

Definition M_ret {A} (a : A) : M A := λ fs, (Ok a, fs, []).

Definition M_bind {A B} (f : A → M B) (m : M A) : M B :=
  λ fs,
    match m fs with
    | (Ok a, fs1, t1) =>
        match f a fs1 with
        | (r, fs2, t2) => (r, fs2, t1 ++ t2)
        end
    | (Raise e, fs1, t1) => (Raise e, fs1, t1)
    end.

#[global] Instance M_mret : MRet M := @M_ret.
#[global] Instance M_mbind : MBind M := @M_bind.

Definition lift {A} (r : result A) : M A := λ fs, (r, fs, []).
Definition emit (ev : event) : M unit := λ fs, (Ok (), fs, [ev]).
Definition get_files : M files := λ fs, (Ok fs, fs, []).

(** [os.path.exists(p)] *)
Definition path_exists (p : string) : M bool :=
  λ fs, (Ok (bool_decide (is_Some (fs !! p))), fs, []).

(** [open(p).read()] *)
Definition read_file (w : World) (p : string) : M string :=
  λ fs,
    if os_refuses w OpenRead p then (Raise OSError, fs, [])
    else match fs !! p with
         | Some text => (Ok text, fs, [])
         | None => (Raise OSError, fs, [])
         end.

(** A collaborator leaving a file at [p]. *)
Definition put_file (p text : string) : M unit :=
  λ fs, (Ok (), <[p := text]> fs, []).

(** [with open(p, 'w') as f: f.write(text)].  The [open] creates or empties
    the file before anything is written; a write that fails after it leaves
    the file with what got through. *)
Definition write_file (w : World) (p text : string) : M unit :=
  λ fs,
    if os_refuses w OpenWrite p then (Raise OSError, fs, [])
    else match write_fails w p text with
         | Some rest => (Raise OSError, <[p := rest]> fs, [])
         | None => put_file p text fs
         end.

(** [os.remove(p)] *)
Definition os_remove (w : World) (p : string) : M unit :=
  λ fs,
    if os_refuses w Remove p then (Raise OSError, fs, [])
    else match fs !! p with
         | Some _ => (Ok (), delete p fs, [])
         | None => (Raise OSError, fs, [])
         end.

(** [d[k]] on what [json.load] gave. *)
Definition subscript (d : value) (k : string) : result value :=
  match d with
  | VDict items =>
      match dict_get k items with
      | Some v => Ok v
      | None => Raise KeyError
      end
  | _ => Raise TypeError
  end.

(** The [except] clauses of [process_captioning] log the error and raise it
    again: the outcome of the body is the outcome of the call. *)
Definition log_and_reraise {A} (body : M A) : M A := body.

(* ================================================================== *)
(** * [process_captioning] *)

(** The staging paths of a job: [srt_path] is
    [os.path.join(STORAGE_PATH, f"{job_id}{subtitle_extension}")] with
    [subtitle_extension = '.' + caption_type]. *)
Definition srt_path_of (job_id caption_type : string) : string :=
  path_join STORAGE_PATH (job_id +:+ "." +:+ caption_type).

Definition output_path_of (job_id : string) : string :=
  path_join STORAGE_PATH (job_id +:+ "_captioned.mp4").

Definition cache_path_of (job_hash : string) : string :=
  path_join STORAGE_PATH (job_hash +:+ "_cache.json").

(** Lines 196-214: the subtitle file is put at [srt_path]. *)
Definition materialize_subtitle (w : World) (caption_srt caption_type : string)
    (caption_style : string) (one_word_highlight : value) (srt_path : string)
  : M unit :=
  if startswith caption_srt "https" then
    _ ← emit (EvHttpGet caption_srt);
    response ← lift (requests_get w caption_srt);
    if String.eqb caption_type "srt" || String.eqb caption_type "vtt" then
      write_file w srt_path (resp_content response)
    else
      subtitle_content ←
        lift (process_subtitle_content (caption_style +:+ resp_text response)
                                       one_word_highlight);
      write_file w srt_path subtitle_content
  else
    subtitle_content ←
      lift (process_subtitle_content (caption_style +:+ caption_srt)
                                     one_word_highlight);
    write_file w srt_path subtitle_content.

(** [v in d] and [d.get(v)] for a dictionary with [str] keys and any key
    asked for: a list or a dictionary cannot be hashed. *)
Definition dict_find_value {V} (v : value) (d : dict V) : result (option V) :=
  match v with
  | VStr name => Ok (dict_get name d)
  | VList _ | VDict _ => Raise TypeError
  | _ => Ok None
  end.

Definition font_warning (job_id : string) (font_name : value) : string :=
  "Job " +:+ job_id +:+ ": Font " +:+ str_value font_name
  +:+ " not found. Using default font Arial.".

(** Lines 219-225: the font path, and the warning when the name is not in
    [FONT_PATHS]. *)
Definition select_font (w : World) (job_id : string) (font_name : value)
  : M (option string) :=
  found ← lift (dict_find_value font_name (FONT_PATHS w));
  match found with
  | Some selected_font => mret (Some selected_font)
  | None =>
      _ ← emit (EvLogWarning (font_warning job_id font_name));
      mret (dict_get "Arial" (FONT_PATHS w))
  end.

(** Lines 173-300: what follows a cache miss. *)
Definition run_pipeline (w : World) (file_url caption_srt caption_type : string)
    (options : dict value) (job_id : string) (cache_path : string) : M value :=
  _ ← emit (EvDownload file_url STORAGE_PATH);
  downloaded ← lift (download_file w file_url STORAGE_PATH);
  let video_path := downloaded.1 in
  _ ← put_file video_path downloaded.2;
  let subtitle_extension := "." +:+ caption_type in
  let srt_path := srt_path_of job_id caption_type in
  let one_word_highlight := opt options "one_word_highlight" (VBool false) in
  let caption_style :=
    if String.eqb caption_type "ass"
    then ass_caption_style (generate_style_line options)
    else EmptyString in
  _ ← materialize_subtitle w caption_srt caption_type caption_style
        one_word_highlight srt_path;
  let output_path := output_path_of job_id in
  let font_name := opt options "font_name" (VStr "Arial") in
  selected_font ← select_font w job_id font_name;
  let subtitle_filter :=
    build_subtitle_filter options subtitle_extension srt_path font_name
                          one_word_highlight in
  _ ← emit (EvProbe video_path);
  fs ← get_files;
  total_frames ← lift (probe_nb_frames w fs video_path);
  _ ← emit (EvRender video_path output_path subtitle_filter);
  rendered ← lift (ffmpeg_run w fs video_path output_path subtitle_filter total_frames);
  _ ← put_file output_path rendered;
  _ ← emit (EvUpload output_path (GCP_BUCKET_NAME w));
  fs ← get_files;
  output_filename ← lift (upload_to_gcs w fs output_path (GCP_BUCKET_NAME w));
  _ ← os_remove w video_path;
  _ ← os_remove w srt_path;
  _ ← os_remove w output_path;
  _ ← write_file w cache_path
        (json_dumps false (VDict [("output_filename", VStr output_filename)]));
  mret (VStr output_filename).

(** Lines 168-171: the answer from the cache record. *)
Definition read_cache (w : World) (cache_path : string) : M value :=
  text ← read_file w cache_path;
  cached_result ← lift (json_load w text);
  lift (subscript cached_result "output_filename").

Definition process_captioning (w : World) (file_url caption_srt caption_type : string)
    (options : list (string * value)) (job_id : string) : M value :=
  log_and_reraise (
    let options := convert_array_to_collection options in
    _ ← lift (validate_options w options);
    let job_hash := get_job_hash w file_url caption_srt caption_type options in
    let cache_path := cache_path_of job_hash in
    cached ← path_exists cache_path;
    if (cached : bool) then read_cache w cache_path
    else
      run_pipeline w file_url caption_srt caption_type options job_id cache_path).

(* ================================================================== *)
(** * Predicates of the statements *)

Fixpoint has_char (c : ascii) (s : string) : bool :=
  match s with
  | EmptyString => false
  | String c' s' => Ascii.eqb c c' || has_char c s'
  end.

(** A continuation of the matcher that fails on every text without a comma. *)
Definition needs_comma {A G} (k : G → string → option A) : Prop :=
  ∀ g s', has_char "," s' = false → k g s' = None.

Definition key_le {V} (a b : string * V) : Prop := String.le a.1 b.1.

Definition is_warning (ev : event) : bool :=
  match ev with EvLogWarning _ => true | _ => false end.

(** Every event of every run of [m] satisfies [P]. *)
Definition emits_only {A} (P : event → Prop) (m : M A) : Prop :=
  ∀ fs, Forall P (m fs).2.

Definition is_render (ev : event) : bool :=
  match ev with EvRender _ _ _ => true | _ => false end.

Definition is_http_get (ev : event) : bool :=
  match ev with EvHttpGet _ => true | _ => false end.

(** A value that is not an integer: [None], a boolean, a [float], a [str],
    a list or a dictionary.  (For [isinstance] a boolean is an [int], as
    [bool] is a subclass of [int] in Python; [isinstance_int] has that.) *)
Definition non_integer (v : value) : Prop :=
  match v with
  | VInt _ => False
  | _ => True
  end.

(* ================================================================== *)
(** * Example inputs *)

(** The cue of the timing example, as a SubRip block and as its two bare
    lines. *)
Definition example_timing_line : string := "00:00:01,000 --> 00:00:03,000".
Definition example_cue : string := example_timing_line +:+ nl +:+ "a b".
Definition example_srt : string :=
  "1" +:+ nl +:+ example_timing_line +:+ nl +:+ "a b" +:+ nl.

(** A stand-in for MD5 in the examples: a 32-bit polynomial checksum of the
    data, written as eight hexadecimal digits. *)
Fixpoint hex_digits (n : nat) (x : Z) (acc : string) : string :=
  match n with
  | O => acc
  | S n' => hex_digits n' (x / 16) (String (hex_digit (x mod 16)) acc)
  end.

Definition checksum_hexdigest (data : string) : string :=
  hex_digits 8
    (fold_left (λ h c, (h * 31 + code c) mod 4294967296)
               (list_ascii_of_string data) 7)
    EmptyString.

Definition example_ref : string := "gs://captions/job1_captioned.mp4".

Definition example_record : value := VDict [("output_filename", VStr example_ref)].

(** A world for the examples, given what its JSON reader does, what the
    upload answers and what the operating system refuses. *)
Definition example_world (reader : string → result value)
    (upload : result string) (refuses : os_op → string → bool) : World := {|
  listdir_fonts := ["Arial.ttf"; "Roboto.TTF"; "README.txt"];
  GCP_BUCKET_NAME := "captions";
  md5_hexdigest := checksum_hexdigest;
  json_load := reader;
  download_file := λ _ directory, Ok (path_join directory "video.mp4", "video");
  requests_get := λ _, Ok {| resp_content := example_srt; resp_text := example_srt |};
  probe_nb_frames := λ _ _, Ok 250;
  ffmpeg_run := λ _ _ _ _ _, Ok "captioned video";
  upload_to_gcs := λ _ _ _, upload;
  os_refuses := refuses;
  write_fails := λ _ _, None;
|}.

(** A reader that knows the record of the examples and nothing else. *)
Definition example_reader (text : string) : result value :=
  if String.eqb text (json_dumps false example_record)
  then Ok example_record else Raise ValueError.

Definition nothing_refused (_ : os_op) (_ : string) : bool := false.

Definition good_world : World :=
  example_world example_reader (Ok example_ref) nothing_refused.

Definition example_options : list (string * value) :=
  [ ("font_name", VStr "Arial"); ("font_size", VInt 24);
    ("primary_color", VStr "&H00FFFFFF"); ("one_word_highlight", VBool true) ].

Definition example_file_url : string := "https://example.com/video.mp4".
Definition example_caption_url : string := "https://example.com/captions.srt".

(** A world in which the upload fails. *)
Definition upload_fails_world : World :=
  example_world example_reader (Raise (OtherError "StorageError")) nothing_refused.

(** A world whose JSON reader rejects what it is given. *)
Definition rejecting_reader (_ : string) : result value := Raise ValueError.

Definition corrupt_cache_world : World :=
  example_world rejecting_reader (Ok example_ref) nothing_refused.

Definition example_cache_path : string :=
  cache_path_of (get_job_hash good_world example_file_url example_caption_url
                   "srt" (convert_array_to_collection example_options)).

(** A world in which the cache record cannot be written. *)
Definition cache_write_refused (op : os_op) (p : string) : bool :=
  match op with
  | OpenWrite => String.eqb p example_cache_path
  | _ => false
  end.

Definition cache_write_fails_world : World :=
  example_world example_reader (Ok example_ref) cache_write_refused.

(** A world in which the write of the cache record fails after the file was
    opened, leaving it empty. *)
Definition torn_cache_world : World := {|
  listdir_fonts := listdir_fonts good_world;
  GCP_BUCKET_NAME := GCP_BUCKET_NAME good_world;
  md5_hexdigest := md5_hexdigest good_world;
  json_load := json_load good_world;
  download_file := download_file good_world;
  requests_get := requests_get good_world;
  probe_nb_frames := probe_nb_frames good_world;
  ffmpeg_run := ffmpeg_run good_world;
  upload_to_gcs := upload_to_gcs good_world;
  os_refuses := os_refuses good_world;
  write_fails := λ p _, if String.eqb p example_cache_path
                        then Some EmptyString else None;
|}.

(** A run in which every collaborator succeeds, from an empty directory. *)
Definition good_run : result value * files * list event :=
  process_captioning good_world example_file_url example_caption_url
    "srt" example_options "job1" ∅.

(** The run in which the upload fails, from an empty directory. *)
Definition upload_failure_run : result value * files * list event :=
  process_captioning upload_fails_world example_file_url example_caption_url
    "srt" example_options "job1" ∅.

(** The run that finds a corrupt record at the cache path. *)
Definition corrupt_cache_run : result value * files * list event :=
  process_captioning corrupt_cache_world example_file_url example_caption_url
    "srt" example_options "job1" {[ example_cache_path := "not json" ]}.

(** The run whose write of the cache record fails after the open. *)
Definition torn_cache_run : result value * files * list event :=
  process_captioning torn_cache_world example_file_url example_caption_url
    "srt" example_options "job1" ∅.

(** The run that cannot write its cache record. *)
Definition cache_write_failure_run : result value * files * list event :=
  process_captioning cache_write_fails_world example_file_url
    example_caption_url "srt" example_options "job1" ∅.

(* ================================================================== *)
(** * Predicates of the further properties *)

(** [font_file.endswith('.ttf') or font_file.endswith('.TTF')] *)
Definition is_font_file (font_file : string) : bool :=
  endswith font_file ".ttf" || endswith font_file ".TTF".

(** The option names that [generate_style_line] reads. *)
Definition style_line_keys : list string :=
  [ "font_name"; "font_size"; "primary_color"; "outline_color"; "back_color";
    "bold"; "italic"; "underline"; "strikeout"; "outline"; "shadow";
    "alignment"; "margin_l"; "margin_r"; "margin_v"; "encoding";
    "one_word_highlight" ].

(** The collaborator an event is a call of. *)
Inductive event_kind : Type :=
| KDownload | KHttpGet | KProbe | KRender | KUpload | KWarning.

Definition kind_of (ev : event) : event_kind :=
  match ev with
  | EvDownload _ _ => KDownload
  | EvHttpGet _ => KHttpGet
  | EvProbe _ => KProbe
  | EvRender _ _ _ => KRender
  | EvUpload _ _ => KUpload
  | EvLogWarning _ => KWarning
  end.

(** The calls of a run that misses the cache and returns, in order. *)
Definition pipeline_kinds (caption_srt : string) : list event_kind :=
  KDownload
  :: (if startswith caption_srt "https" then [KHttpGet] else [])
  ++ [KProbe; KRender; KUpload].

(** A computation that emits the events of kinds [l] when it returns and
    the first few of them when it raises. *)
Definition follows_order {A} (l : list event_kind) (m : M A) : Prop :=
  ∀ fs,
    match (m fs).1.1 with
    | Ok _ => kind_of <$> (m fs).2 = l
    | Raise _ => kind_of <$> (m fs).2 `prefix_of` l
    end.

(** A computation that leaves the path [p] as it found it. *)
Definition untouched {A} (p : string) (m : M A) : Prop :=
  ∀ fs, (m fs).1.2 !! p = fs !! p.

(** A computation that, unless it returns, leaves the path [p] as it found
    it or with the remains of a write to [p] that failed. *)
Definition untouched_on_raise {A} (w : World) (p : string) (m : M A) : Prop :=
  ∀ fs,
    (∃ a, (m fs).1.1 = Ok a)
    ∨ (m fs).1.2 !! p = fs !! p
    ∨ (∃ text rest, write_fails w p text = Some rest
                    ∧ (m fs).1.2 !! p = Some rest).

(** A computation that deletes no file. *)
Definition keeps_files {A} (m : M A) : Prop :=
  ∀ fs p, is_Some (fs !! p) → is_Some ((m fs).1.2 !! p).

(* ================================================================== *)
(** * Results and sequencing *)

Lemma bind_Ok {A B} (a : A) (f : A → result B) : (Ok a ≫= f) = f a.
Proof. reflexivity. Qed.

Lemma bind_Raise {A B} (e : exn) (f : A → result B) : (Raise e ≫= f) = Raise e.
Proof. reflexivity. Qed.

(* ================================================================== *)
(** * Facts about the string helpers *)

Lemma has_char_rev_app c a b :
  has_char c (String.rev_app a b) = has_char c a || has_char c b.
Proof.
  revert b. induction a as [|x a IH]; intros b; simpl; [done|].
  rewrite IH. simpl. destruct (Ascii.eqb c x), (has_char c a), (has_char c b); done.
Qed.

Lemma has_char_rev c s : has_char c (String.rev s) = has_char c s.
Proof. unfold String.rev. rewrite has_char_rev_app. simpl. apply orb_false_r. Qed.

Lemma has_char_lstrip c s : has_char c s = false → has_char c (lstrip s) = false.
Proof.
  induction s as [|x s IH]; simpl; [done|].
  intros Hs. destruct (isspace x); [|done].
  apply IH. by apply orb_false_iff in Hs as [_ ?].
Qed.

Lemma has_char_strip c s : has_char c s = false → has_char c (strip s) = false.
Proof.
  intros Hs. unfold strip, rstrip.
  rewrite has_char_rev. apply has_char_lstrip.
  rewrite has_char_rev. by apply has_char_lstrip.
Qed.

Lemma prefix_one_char c x s :
  String.prefix (String c EmptyString) (String x s) = Ascii.eqb c x.
Proof.
  simpl. destruct (ascii_dec c x) as [->|Hne].
  - rewrite Ascii.eqb_refl. by destruct s.
  - symmetry. by apply Ascii.eqb_neq.
Qed.

(** The first piece of a split on one character does not hold it. *)
Lemma split_go_head_no_sep c s acc :
  has_char c acc = false →
  has_char c (hd EmptyString (split_go (String c EmptyString) 0 acc s)) = false.
Proof.
  revert acc. induction s as [|x s IH]; intros acc Hacc.
  - simpl. by rewrite has_char_rev.
  - cbn [split_go]. rewrite prefix_one_char.
    destruct (Ascii.eqb c x) eqn:Hcx.
    + simpl. by rewrite has_char_rev.
    + apply IH. simpl. by rewrite Hcx.
Qed.

Lemma split_head_no_sep c s :
  has_char c (hd EmptyString (str_split s (String c EmptyString))) = false.
Proof. by apply split_go_head_no_sep. Qed.

(** ** The time format needs its comma *)

Section RegexNeedsComma.
Context {A : Type}.

Lemma re_class_comma_free p s (k : ascii → string → option A) :
  has_char "," s = false → needs_comma k → re_class p s k = None.
Proof.
  intros Hs Hk. destruct s as [|c s]; simpl; [done|].
  destruct (p c); [|done]. apply Hk.
  simpl in Hs. by apply orb_false_iff in Hs as [_ ?].
Qed.

Lemma re_two_comma_free p1 p2 s (k : string → string → option A) :
  has_char "," s = false → needs_comma k → re_two p1 p2 s k = None.
Proof.
  intros Hs Hk. unfold re_two.
  apply re_class_comma_free; [done|]. intros c1 s1 Hs1.
  apply re_class_comma_free; [done|]. intros c2 s2 Hs2. by apply Hk.
Qed.

Lemma re_one_comma_free p s (k : string → string → option A) :
  has_char "," s = false → needs_comma k → re_one p s k = None.
Proof.
  intros Hs Hk. unfold re_one.
  apply re_class_comma_free; [done|]. intros c1 s1 Hs1. by apply Hk.
Qed.

Lemma re_H_comma_free s (k : string → string → option A) :
  has_char "," s = false → needs_comma k → re_H s k = None.
Proof.
  intros Hs Hk. unfold re_H.
  by rewrite !re_two_comma_free, re_one_comma_free.
Qed.

Lemma re_M_comma_free s (k : string → string → option A) :
  has_char "," s = false → needs_comma k → re_M s k = None.
Proof.
  intros Hs Hk. unfold re_M.
  by rewrite re_two_comma_free, re_one_comma_free.
Qed.

Lemma re_S_comma_free s (k : string → string → option A) :
  has_char "," s = false → needs_comma k → re_S s k = None.
Proof.
  intros Hs Hk. unfold re_S.
  by rewrite !re_two_comma_free, re_one_comma_free.
Qed.

Lemma re_lit_comma_free c s (k : string → option A) :
  has_char "," s = false →
  (∀ s', has_char "," s' = false → k s' = None) →
  re_lit c s k = None.
Proof.
  intros Hs Hk. unfold re_lit.
  apply re_class_comma_free; [done|]. intros _ s1 Hs1. by apply Hk.
Qed.

Lemma re_lit_comma_missing s (k : string → option A) :
  has_char "," s = false → re_lit "," s k = None.
Proof.
  intros Hs. destruct s as [|c s]; [done|].
  change (Ascii.eqb "," c || has_char "," s = false) in Hs.
  apply orb_false_iff in Hs as [Hc _].
  unfold re_lit, re_class. by rewrite Hc.
Qed.
End RegexNeedsComma.

Lemma time_regex_match_comma_free s :
  has_char "," s = false → time_regex_match s = None.
Proof.
  intros Hs. unfold time_regex_match.
  apply re_H_comma_free; [done|]. intros h s1 Hs1.
  apply re_lit_comma_free; [done|]. intros s2 Hs2.
  apply re_M_comma_free; [done|]. intros m s3 Hs3.
  apply re_lit_comma_free; [done|]. intros s4 Hs4.
  apply re_S_comma_free; [done|]. intros sec s5 Hs5.
  by apply re_lit_comma_missing.
Qed.

Lemma strptime_comma_free s :
  has_char "," s = false → strptime s = Raise ValueError.
Proof. intros Hs. unfold strptime. by rewrite time_regex_match_comma_free. Qed.

Lemma strptime_raise_inv s e : strptime s = Raise e → e = ValueError.
Proof.
  unfold strptime. destruct (time_regex_match s) as [[[[[h m] sec] f] rest]|];
    repeat case_match; congruence.
Qed.

(** The text handed to the second [strptime] is what stands before the first
    comma after the arrow: it never has the comma the format asks for. *)
Lemma end_time_never_parses text_part :
  strptime (strip (hd EmptyString (str_split text_part ","))) = Raise ValueError.
Proof.
  apply strptime_comma_free, has_char_strip, (split_head_no_sep ","%char).
Qed.

(** Every cue line makes the loop body raise [ValueError]. *)
Lemma process_line_cue_raises line :
  is_cue_line line = true → process_line line = Raise ValueError.
Proof.
  intros Hcue. unfold process_line. rewrite Hcue.
  destruct (str_split line "-->") as [|time_part [|text_part [|? ?]]]; try done.
  destruct (strptime (strip time_part)) as [start_time|e] eqn:Hstart.
  - by rewrite bind_Ok, end_time_never_parses.
  - by rewrite (strptime_raise_inv _ _ Hstart).
Qed.

Lemma process_line_other line :
  is_cue_line line = false → process_line line = Ok [line].
Proof. intros Hcue. unfold process_line. by rewrite Hcue. Qed.

Lemma process_line_raise_inv line e :
  process_line line = Raise e → is_cue_line line = true ∧ e = ValueError.
Proof.
  destruct (is_cue_line line) eqn:Hcue.
  - rewrite process_line_cue_raises by done. by intros [= <-].
  - by rewrite process_line_other.
Qed.

Lemma mapM_result_raise {A B} (f : A → result B) l x e :
  x ∈ l → f x = Raise e → ∃ e', mapM_result f l = Raise e'.
Proof.
  intros Hin Hx. induction Hin as [x l|x y l Hin IH]; simpl.
  - rewrite Hx. eauto.
  - destruct (f y); [|eauto]. destruct (IH Hx) as [e' ->]. eauto.
Qed.

Lemma mapM_result_raise_inv {A B} (f : A → result B) l e :
  mapM_result f l = Raise e → ∃ x, x ∈ l ∧ f x = Raise e.
Proof.
  induction l as [|y l IH]; simpl; [done|].
  destruct (f y) eqn:Hy.
  - destruct (mapM_result f l); [done|]. intros [= <-].
    destruct IH as (x & ? & ?); [done|]. exists x. split; [by right|done].
  - intros [= <-]. exists y. split; [by left|done].
Qed.

(* ================================================================== *)
(** * Subtitle timing expansion *)

(** C2 (the code departs from the claim).  On the cue
    [00:00:01,000 --> 00:00:03,000] with text [a b] and word-highlight
    enabled, [process_subtitle_content] returns no cues: the end timestamp
    is cut at its comma before it is parsed ([00:00:03] against
    [%H:%M:%S,%f]) and the call raises [ValueError].  This holds for the
    bare cue and for the cue inside a SubRip block. *)
Theorem timing_expansion_example_raises :
  process_subtitle_content example_cue (VBool true) = Raise ValueError
  ∧ process_subtitle_content example_srt (VBool true) = Raise ValueError
  ∧ strptime "00:00:03" = Raise ValueError.
Proof. repeat split; vm_compute; reflexivity. Qed.

(** With word-highlight enabled, content with a cue line never comes back. *)
Lemma process_subtitle_content_cue_raises content owh line :
  truthy owh = true →
  line ∈ str_split content nl →
  is_cue_line line = true →
  process_subtitle_content content owh = Raise ValueError.
Proof.
  intros Ht Hin Hcue. unfold process_subtitle_content. rewrite Ht. simpl negb.
  cbv iota.
  destruct (mapM_result_raise process_line _ _ _ Hin
              (process_line_cue_raises _ Hcue)) as [e He].
  rewrite He, bind_Raise.
  apply mapM_result_raise_inv in He as (x & _ & Hx).
  by apply process_line_raise_inv in Hx as [_ ->].
Qed.

(** C3 (the code departs from the claim).  A cue whose text has no word,
    with word-highlight enabled: the call does not return.  It raises
    [ValueError], for the SubRip block with a blank text line and for a cue
    line whose text after the comma is empty: the end timestamp is cut at
    its comma before it is parsed, as in C2, so the cue is neither dropped
    nor passed through. *)
Lemma zero_word_cue_counterexample :
  process_subtitle_content
    ("1" +:+ nl +:+ example_timing_line +:+ nl +:+ "   " +:+ nl) (VBool true)
  = Raise ValueError
  ∧ process_subtitle_content "00:00:01,000 --> 00:00:03," (VBool true)
    = Raise ValueError.
Proof. split; vm_compute; reflexivity. Qed.

(* ================================================================== *)
(** * Dictionaries and the canonical order of their items *)

Section Dict.
Context {V : Type}.
Implicit Types (d : dict V) (k : string) (v : V).

Lemma dict_get_Some_elem d k v : dict_get k d = Some v → (k, v) ∈ d.
Proof.
  induction d as [|[k' v'] d IH]; csimpl; [done|].
  destruct (String.eqb_spec k k') as [->|Hne].
  - intros [= ->]. left.
  - intros Hd. right. by apply IH.
Qed.

Lemma dict_get_None_keys d k : dict_get k d = None ↔ k ∉ dict_keys d.
Proof.
  unfold dict_keys. induction d as [|[k' v'] d IH]; csimpl.
  - split; [intros _; apply not_elem_of_nil|done].
  - rewrite not_elem_of_cons. destruct (String.eqb_spec k k') as [->|Hne].
    + split; [done|]. by intros [? _].
    + rewrite IH. split; [by auto|by intros [_ ?]].
Qed.

Lemma elem_dict_get d k v :
  NoDup (dict_keys d) → (k, v) ∈ d → dict_get k d = Some v.
Proof.
  unfold dict_keys. induction d as [|[k' v'] d IH]; csimpl.
  - intros _ Hin. by apply elem_of_nil in Hin.
  - intros [Hk' Hnd]%NoDup_cons [Heq|Hin]%elem_of_cons.
    + injection Heq as -> ->. by rewrite String.eqb_refl.
    + destruct (String.eqb_spec k k') as [->|Hne]; [|by apply IH].
      destruct Hk'. change k' with ((k', v).1). by apply list_elem_of_fmap_2.
Qed.

Lemma dict_keys_set d k v :
  dict_keys (dict_set k v d)
  = if dict_mem k d then dict_keys d else dict_keys d ++ [k].
Proof.
  unfold dict_keys, dict_mem. induction d as [|[k' v'] d IH]; csimpl; [done|].
  destruct (String.eqb_spec k k') as [->|Hne]; [done|].
  csimpl. rewrite IH. by destruct (dict_get k d).
Qed.

Lemma dict_set_NoDup d k v :
  NoDup (dict_keys d) → NoDup (dict_keys (dict_set k v d)).
Proof.
  intros Hnd. rewrite dict_keys_set. unfold dict_mem.
  destruct (dict_get k d) eqn:Hk; [done|].
  apply NoDup_app. split_and!; [done| |apply NoDup_singleton].
  intros x Hx ->%list_elem_of_singleton. by apply dict_get_None_keys in Hk.
Qed.

Lemma dict_get_set d k k' v :
  dict_get k' (dict_set k v d) = if String.eqb k' k then Some v else dict_get k' d.
Proof.
  induction d as [|[k0 v0] d IH]; csimpl; [done|].
  destruct (String.eqb_spec k k0) as [->|Hne]; csimpl.
  - by destruct (String.eqb_spec k' k0).
  - rewrite IH. destruct (String.eqb_spec k' k0) as [->|?]; [|done].
    by destruct (String.eqb_spec k0 k) as [->|?].
Qed.
End Dict.

Lemma dict_keys_map_values {V W} (f : V → W) (d : dict V) :
  dict_keys (map (λ kv, match kv with (k, x) => (k, f x) end) d) = dict_keys d.
Proof.
  unfold dict_keys. induction d as [|[k v] d IH]; csimpl; [done|]. by rewrite IH.
Qed.

Lemma dict_get_map_values {V W} (f : V → W) (d : dict V) k :
  dict_get k (map (λ kv, match kv with (k, x) => (k, f x) end) d)
  = f <$> dict_get k d.
Proof.
  induction d as [|[k' v] d IH]; simpl; [done|].
  by destruct (String.eqb k k').
Qed.

Lemma convert_array_to_collection_NoDup options :
  NoDup (dict_keys (convert_array_to_collection options)).
Proof.
  unfold convert_array_to_collection.
  assert (NoDup (dict_keys ([] : dict value))) as Hnil by apply NoDup_nil_2.
  revert Hnil. generalize ([] : dict value).
  induction options as [|item options IH]; intros acc Hacc; simpl; [done|].
  by apply IH, dict_set_NoDup.
Qed.

(** ** Sorting by key *)

#[global] Instance key_le_trans {V} : Transitive (@key_le V).
Proof. intros a b c. unfold key_le. intros Hab Hbc. by etrans. Qed.

Lemma ltb_le a b : String.ltb a b = true → String.le a b.
Proof.
  unfold String.ltb, String.le, String.leb.
  by destruct (String.compare a b).
Qed.

Lemma not_ltb_le a b : String.ltb a b = false → String.le b a.
Proof.
  unfold String.ltb, String.le, String.leb.
  rewrite (String.compare_antisym a b).
  by destruct (String.compare b a).
Qed.

Section SortedItems.
Context {V : Type}.
Implicit Types (l d : list (string * V)).

Lemma insert_by_key_Permutation kv l : insert_by_key kv l ≡ₚ kv :: l.
Proof.
  induction l as [|kv' l IH]; simpl; [done|].
  destruct (String.ltb kv'.1 kv.1); [|done].
  rewrite IH. apply Permutation_swap.
Qed.

Lemma sorted_items_Permutation d : sorted_items d ≡ₚ d.
Proof.
  unfold sorted_items. induction d as [|kv d IH]; simpl; [done|].
  by rewrite insert_by_key_Permutation, IH.
Qed.

Lemma insert_by_key_HdRel a kv l :
  key_le a kv → HdRel key_le a l → HdRel key_le a (insert_by_key kv l).
Proof.
  intros Ha Hl. destruct l as [|kv' l]; simpl; [by constructor|].
  destruct (String.ltb kv'.1 kv.1); constructor; [|done].
  by inv Hl.
Qed.

Lemma insert_by_key_Sorted kv l :
  Sorted key_le l → Sorted key_le (insert_by_key kv l).
Proof.
  induction 1 as [|kv' l Hl IH Hhd]; simpl; [by repeat constructor|].
  destruct (String.ltb kv'.1 kv.1) eqn:Hlt.
  - constructor; [done|]. apply insert_by_key_HdRel; [|done].
    by apply ltb_le.
  - constructor; [by constructor|]. constructor. by apply not_ltb_le.
Qed.

Lemma sorted_items_Sorted d : Sorted key_le (sorted_items d).
Proof.
  unfold sorted_items. induction d as [|kv d IH]; simpl; [constructor|].
  by apply insert_by_key_Sorted.
Qed.

(** Two dictionaries with the same lookups have the same sorted items. *)
Lemma sorted_items_canonical d1 d2 :
  NoDup (dict_keys d1) → NoDup (dict_keys d2) →
  (∀ k, dict_get k d1 = dict_get k d2) →
  sorted_items d1 = sorted_items d2.
Proof.
  intros Hnd1 Hnd2 Hget.
  assert (∀ x, x ∈ d1 ↔ x ∈ d2) as Hmem.
  { intros [k v]. split; intros Hin.
    - apply dict_get_Some_elem. rewrite <-Hget. by apply elem_dict_get.
    - apply dict_get_Some_elem. rewrite Hget. by apply elem_dict_get. }
  assert (d1 ≡ₚ d2) as Hperm.
  { apply NoDup_Permutation; [| |done].
    - by apply (NoDup_fmap_1 fst).
    - by apply (NoDup_fmap_1 fst). }
  apply (Sorted_unique_strong key_le); [|apply sorted_items_Sorted..|].
  - intros [k1 v1] [k2 v2] H1 H2 Hle1 Hle2. unfold key_le in *. simpl in *.
    assert (k1 = k2) as -> by (by apply (anti_symm String.le)).
    rewrite sorted_items_Permutation in H1, H2.
    apply elem_dict_get in H1, H2; [|done..].
    rewrite Hget in H1. congruence.
  - by rewrite !sorted_items_Permutation.
Qed.
End SortedItems.

(* ================================================================== *)
(** * Fingerprint *)

Lemma json_dumps_dict_same_lookups (d1 d2 : dict value) :
  NoDup (dict_keys d1) → NoDup (dict_keys d2) →
  (∀ k, dict_get k d1 = dict_get k d2) →
  json_dumps true (VDict d1) = json_dumps true (VDict d2).
Proof.
  intros Hnd1 Hnd2 Hget. cbn [json_dumps].
  do 4 f_equal. apply sorted_items_canonical.
  - by rewrite dict_keys_map_values.
  - by rewrite dict_keys_map_values.
  - intros k. by rewrite !dict_get_map_values, Hget.
Qed.

Lemma job_data_dumps_congr file_url caption_srt caption_type d1 d2 :
  json_dumps true (VDict d1) = json_dumps true (VDict d2) →
  json_dumps true (job_data file_url caption_srt caption_type d1)
  = json_dumps true (job_data file_url caption_srt caption_type d2).
Proof.
  intros Heq. unfold job_data.
  remember (VDict d1) as x1. remember (VDict d2) as x2.
  cbn [json_dumps map]. by rewrite Heq.
Qed.

(** C6.  Two option lists that convert to the same mapping (the same value
    under every name, in whatever order the names were given) give the same
    digest, the other three inputs being equal. *)
Theorem get_job_hash_order_independent (w : World)
    (file_url caption_srt caption_type : string)
    (options1 options2 : list (string * value)) :
  (∀ k, dict_get k (convert_array_to_collection options1)
        = dict_get k (convert_array_to_collection options2)) →
  get_job_hash w file_url caption_srt caption_type
               (convert_array_to_collection options1)
  = get_job_hash w file_url caption_srt caption_type
                 (convert_array_to_collection options2).
Proof.
  intros Hget. unfold get_job_hash. f_equal.
  apply job_data_dumps_congr, json_dumps_dict_same_lookups;
    auto using convert_array_to_collection_NoDup.
Qed.

(* ================================================================== *)
(** * Running computations *)

Lemma run_bind_Ok {A B} (m : M A) (f : A → M B) fs a fs1 t1 :
  m fs = (Ok a, fs1, t1) →
  (m ≫= f) fs = ((f a fs1).1.1, (f a fs1).1.2, t1 ++ (f a fs1).2).
Proof.
  intros Hm. unfold mbind, M_mbind, M_bind. rewrite Hm.
  by destruct (f a fs1) as [[r fs2] t2].
Qed.

Lemma run_bind_Raise {A B} (m : M A) (f : A → M B) fs e fs1 t1 :
  m fs = (Raise e, fs1, t1) → (m ≫= f) fs = (Raise e, fs1, t1).
Proof. intros Hm. unfold mbind, M_mbind, M_bind. by rewrite Hm. Qed.

Lemma run_bind_lift_Ok {A B} (a : A) (f : A → M B) fs :
  (lift (Ok a) ≫= f) fs = f a fs.
Proof.
  unfold mbind, M_mbind, M_bind, lift. by destruct (f a fs) as [[r fs2] t2].
Qed.

Lemma run_bind_lift_Raise {A B} e (f : A → M B) fs :
  (lift (Raise e) ≫= f) fs = (Raise e, fs, []).
Proof. reflexivity. Qed.

Lemma run_bind_emit {B} ev (f : unit → M B) fs :
  (emit ev ≫= f) fs = ((f () fs).1.1, (f () fs).1.2, ev :: (f () fs).2).
Proof. by rewrite (run_bind_Ok _ _ fs () fs [ev]). Qed.

Lemma run_bind_get_files {B} (f : files → M B) fs :
  (get_files ≫= f) fs = f fs fs.
Proof.
  unfold mbind, M_mbind, M_bind, get_files. by destruct (f fs fs) as [[r fs2] t2].
Qed.

(** An outcome [Ok] of a sequence comes from an outcome [Ok] of its first
    part. *)
Lemma run_bind_Ok_inv {A B} (m : M A) (f : A → M B) fs b fs' t :
  (m ≫= f) fs = (Ok b, fs', t) →
  ∃ a fs1 t1 t2,
    m fs = (Ok a, fs1, t1) ∧ f a fs1 = (Ok b, fs', t2) ∧ t = t1 ++ t2.
Proof.
  unfold mbind, M_mbind, M_bind.
  destruct (m fs) as [[[a|e] fs1] t1]; [|done].
  destruct (f a fs1) as [[r fs2] t2] eqn:Hf. intros [= -> -> <-].
  by exists a, fs1, t1, t2.
Qed.

(* ================================================================== *)
(** * Validation *)

Lemma validate_options_raise_inv w options e :
  validate_options w options = Raise e → e = ValueError.
Proof. unfold validate_options. repeat case_match; congruence. Qed.

Lemma validate_options_Ok_inv w options :
  validate_options w options = Ok () →
  dict_mem "font_name" options = true
  ∧ dict_mem "font_size" options = true
  ∧ dict_mem "primary_color" options = true
  ∧ value_in_strs (opt options "font_name" VNone) (ACCEPTABLE_FONTS w) = true
  ∧ isinstance_int (opt options "font_size" VNone) = true
  ∧ ∃ n, int_of_value (opt options "font_size" VNone) = Some n ∧ 0 < n.
Proof.
  unfold validate_options.
  destruct (forallb _ required_options) eqn:Hreq; [|done]. simpl negb. cbv iota.
  destruct (value_in_strs _ _) eqn:Hfont; [|done]. simpl negb. cbv iota.
  destruct (isinstance_int _) eqn:Hint; [|done]. simpl negb. simpl orb.
  intros Hsize. simpl in Hreq.
  apply andb_prop in Hreq as [? [? [? _]%andb_prop]%andb_prop].
  split_and!; try done.
  destruct (opt options "font_size" VNone) as [| [] |n| | | |]; try done;
    simpl in *.
  - exists 1. split; [done|lia].
  - exists n. split; [done|]. destruct (n <=? 0) eqn:Hn; [done|]. lia.
Qed.

(** A font name that passed validation is a key of [FONT_PATHS]. *)
Lemma validated_font_resolves w options :
  validate_options w options = Ok () →
  ∃ name path,
    opt options "font_name" (VStr "Arial") = VStr name
    ∧ dict_get name (FONT_PATHS w) = Some path.
Proof.
  intros (Hmem & _ & _ & Hin & _)%validate_options_Ok_inv.
  unfold opt, dict_get_default, dict_mem in *.
  destruct (dict_get "font_name" options) as [v|]; [|done]. simpl in *.
  unfold value_in_strs in Hin. apply existsb_exists in Hin as (name & Hname & Heq).
  destruct v as [| | | |s| |]; try done. simpl in Heq.
  apply String.eqb_eq in Heq as ->. exists name.
  destruct (dict_get name (FONT_PATHS w)) as [path|] eqn:Hget; [by eexists|].
  apply dict_get_None_keys in Hget. destruct Hget.
  by apply list_elem_of_In.
Qed.

(* ================================================================== *)
(** * Events of a computation *)

Section EmitsOnly.
Context (P : event → Prop).

Lemma emits_only_bind {A B} (m : M A) (f : A → M B) :
  emits_only P m → (∀ a, emits_only P (f a)) → emits_only P (m ≫= f).
Proof.
  intros Hm Hf fs. specialize (Hm fs). unfold mbind, M_mbind, M_bind.
  destruct (m fs) as [[[a|e] fs1] t1]; [|done].
  specialize (Hf a fs1). destruct (f a fs1) as [[r fs2] t2].
  by apply Forall_app.
Qed.

Lemma emits_only_bind_lift {A B} (r : result A) (f : A → M B) :
  (∀ a, r = Ok a → emits_only P (f a)) → emits_only P (lift r ≫= f).
Proof.
  intros Hf fs. destruct r as [a|e]; [|by constructor].
  rewrite run_bind_lift_Ok. by apply Hf.
Qed.

Lemma emits_only_silent {A} (m : M A) :
  (∀ fs, (m fs).2 = []) → emits_only P m.
Proof. intros Hm fs. rewrite Hm. constructor. Qed.

Lemma emits_only_ret {A} (a : A) : emits_only P (mret a).
Proof. by apply emits_only_silent. Qed.

Lemma emits_only_lift {A} (r : result A) : emits_only P (lift r).
Proof. by apply emits_only_silent. Qed.

Lemma emits_only_emit ev : P ev → emits_only P (emit ev).
Proof. intros Hev fs. by repeat constructor. Qed.

Lemma emits_only_get_files : emits_only P get_files.
Proof. by apply emits_only_silent. Qed.

Lemma emits_only_path_exists p : emits_only P (path_exists p).
Proof. by apply emits_only_silent. Qed.

Lemma emits_only_put_file p text : emits_only P (put_file p text).
Proof. by apply emits_only_silent. Qed.

Lemma emits_only_read_file w p : emits_only P (read_file w p).
Proof.
  apply emits_only_silent. intros fs. unfold read_file.
  by repeat case_match.
Qed.

Lemma emits_only_write_file w p text : emits_only P (write_file w p text).
Proof.
  apply emits_only_silent. intros fs. unfold write_file.
  by repeat case_match.
Qed.

Lemma emits_only_os_remove w p : emits_only P (os_remove w p).
Proof.
  apply emits_only_silent. intros fs. unfold os_remove.
  by repeat case_match.
Qed.

Lemma emits_only_materialize_subtitle w caption_srt caption_type
    caption_style one_word_highlight srt_path :
  (∀ url, P (EvHttpGet url)) →
  emits_only P (materialize_subtitle w caption_srt caption_type caption_style
                  one_word_highlight srt_path).
Proof.
  intros HP. unfold materialize_subtitle.
  repeat first
    [ apply emits_only_bind; [|intros ?]
    | apply emits_only_emit, HP
    | apply emits_only_lift
    | apply emits_only_write_file
    | case_match ].
Qed.
End EmitsOnly.

(* ================================================================== *)
(** * Font resolution *)

Lemma select_font_validated w options job_id :
  validate_options w options = Ok () →
  ∃ selected_font,
    dict_find_value (opt options "font_name" (VStr "Arial")) (FONT_PATHS w)
    = Ok (Some selected_font)
    ∧ ∀ fs, select_font w job_id (opt options "font_name" (VStr "Arial")) fs
            = (Ok (Some selected_font), fs, []).
Proof.
  intros (name & path & Hname & Hpath)%validated_font_resolves.
  exists path. rewrite Hname. unfold select_font. simpl. rewrite Hpath.
  split; [done|]. intros fs. by rewrite run_bind_lift_Ok.
Qed.

Lemma process_captioning_no_warning w file_url caption_srt caption_type
    options job_id :
  emits_only (λ ev, is_warning ev = false)
    (process_captioning w file_url caption_srt caption_type options job_id).
Proof.
  unfold process_captioning, log_and_reraise. cbv zeta.
  apply emits_only_bind_lift. intros [] Hval.
  apply emits_only_bind; [apply emits_only_path_exists|]. intros [|].
  - repeat first
      [ apply emits_only_bind; [|intros ?]
      | apply emits_only_read_file
      | apply emits_only_lift ].
  - unfold run_pipeline. cbv zeta.
    destruct (select_font_validated _ _ job_id Hval) as (path & _ & Hsel).
    repeat first
      [ apply emits_only_silent; intros fs; by rewrite Hsel
      | apply emits_only_bind; [|intros ?]
      | by apply emits_only_emit
      | apply emits_only_lift
      | apply emits_only_ret
      | apply emits_only_get_files
      | apply emits_only_put_file
      | apply emits_only_write_file
      | apply emits_only_os_remove
      | by apply emits_only_materialize_subtitle ].
Qed.

(** C10.  Once [validate_options] has accepted the options, the requested
    font is a key of [FONT_PATHS]: [select_font] returns its asset path and
    emits no warning, and no run of [process_captioning] logs the fallback
    warning. *)
Theorem font_fallback_unreachable (w : World)
    (file_url caption_srt caption_type : string)
    (options : list (string * value)) (job_id : string) :
  validate_options w (convert_array_to_collection options) = Ok () →
  (∃ selected_font,
     dict_find_value
       (opt (convert_array_to_collection options) "font_name" (VStr "Arial"))
       (FONT_PATHS w) = Ok (Some selected_font)
     ∧ ∀ fs,
         select_font w job_id
           (opt (convert_array_to_collection options) "font_name" (VStr "Arial"))
           fs
         = (Ok (Some selected_font), fs, []))
  ∧ ∀ fs,
      Forall (λ ev, is_warning ev = false)
        (process_captioning w file_url caption_srt caption_type options job_id fs).2.
Proof.
  intros Hval. split.
  - by apply select_font_validated.
  - apply process_captioning_no_warning.
Qed.

(* ================================================================== *)
(** * Validation boundary *)

Lemma process_captioning_invalid w file_url caption_srt caption_type options
    job_id fs e :
  validate_options w (convert_array_to_collection options) = Raise e →
  process_captioning w file_url caption_srt caption_type options job_id fs
  = (Raise ValueError, fs, []).
Proof.
  intros Hval. rewrite (validate_options_raise_inv _ _ _ Hval) in Hval.
  unfold process_captioning, log_and_reraise. cbv zeta.
  by rewrite Hval, run_bind_lift_Raise.
Qed.

(** C8 (the code departs from the claim).  A [font_size] of [True] is not
    an integer and is not rejected: [isinstance(True, int)] holds and
    [True <= 0] does not, so the options pass the check whose message is
    [Font size must be a positive integer], and the call goes on to
    download, fetch the captions, probe, render (with [FontSize=True] in the
    filter) and upload, and returns. *)
Lemma boolean_font_size_accepted :
  let options :=
    [ ("font_name", VStr "Arial"); ("font_size", VBool true);
      ("primary_color", VStr "&H00FFFFFF") ] in
  let run :=
    process_captioning good_world example_file_url example_caption_url "srt"
      options "job1" ∅ in
  dict_get "font_size" (convert_array_to_collection options) = Some (VBool true)
  ∧ non_integer (VBool true)
  ∧ validate_options good_world (convert_array_to_collection options) = Ok ()
  ∧ run.1.1 = Ok (VStr example_ref)
  ∧ kind_of <$> run.2 = [KDownload; KHttpGet; KProbe; KRender; KUpload]
  ∧ existsb (λ ev, match ev with
                   | EvRender _ _ vf => contains "FontSize=True" vf
                   | _ => false
                   end) run.2 = true.
Proof. cbv zeta. split_and!; [reflexivity|exact I|vm_compute; reflexivity..]. Qed.

(** Every other case of the validation boundary is rejected before any
    call.  Options without [font_size], with [font_size] 0, with a
    [font_size] that is not an integer and is not [True], or with a
    [font_name] that is not in the allow-list make [process_captioning]
    raise [ValueError] with the working directory untouched and no event:
    nothing was downloaded, rendered or uploaded. *)
Theorem invalid_options_rejected_before_any_call (w : World)
    (file_url caption_srt caption_type : string)
    (options : list (string * value)) (job_id : string) (fs : files) :
  dict_get "font_size" (convert_array_to_collection options) = None
  ∨ dict_get "font_size" (convert_array_to_collection options) = Some (VInt 0)
  ∨ (∃ v, dict_get "font_size" (convert_array_to_collection options) = Some v
          ∧ non_integer v ∧ v ≠ VBool true)
  ∨ value_in_strs (opt (convert_array_to_collection options) "font_name" VNone)
                  (ACCEPTABLE_FONTS w) = false →
  process_captioning w file_url caption_srt caption_type options job_id fs
  = (Raise ValueError, fs, []).
Proof.
  intros Hbad.
  destruct (validate_options w (convert_array_to_collection options))
    as [[]|e] eqn:Hval; [|by eapply process_captioning_invalid].
  exfalso.
  apply validate_options_Ok_inv
    in Hval as (_ & Hmem & _ & Hfont & Hint & n & Hn & Hpos).
  unfold opt, dict_get_default, dict_mem in *.
  destruct Hbad as [Hnone|[Hzero|[(v & Hv & Hnon & Htrue)|Hname]]].
  - by rewrite Hnone in Hmem.
  - rewrite Hzero in Hn. simpl in Hn. injection Hn as <-. lia.
  - rewrite Hv in Hint, Hn. simpl in Hint, Hn.
    destruct v as [| [] | | | | |]; try done.
    simpl in Hn. injection Hn as <-. lia.
  - congruence.
Qed.

Lemma invalid_options_rejected_before_any_call_witness :
  process_captioning good_world example_file_url example_caption_url "srt"
    [("font_name", VStr "Arial"); ("primary_color", VStr "&H00FFFFFF")]
    "job1" ∅
  = (Raise ValueError, ∅, [])
  ∧ process_captioning good_world example_file_url example_caption_url "srt"
      [("font_name", VStr "Arial"); ("font_size", VInt 0);
       ("primary_color", VStr "&H00FFFFFF")]
      "job1" ∅
    = (Raise ValueError, ∅, [])
  ∧ process_captioning good_world example_file_url example_caption_url "srt"
      [("font_name", VStr "Arial"); ("font_size", VStr "24");
       ("primary_color", VStr "&H00FFFFFF")]
      "job1" ∅
    = (Raise ValueError, ∅, [])
  ∧ process_captioning good_world example_file_url example_caption_url "srt"
      [("font_name", VStr "Arial"); ("font_size", VBool false);
       ("primary_color", VStr "&H00FFFFFF")]
      "job1" ∅
    = (Raise ValueError, ∅, [])
  ∧ process_captioning good_world example_file_url example_caption_url "srt"
      [("font_name", VStr "Comic Sans"); ("font_size", VInt 24);
       ("primary_color", VStr "&H00FFFFFF")]
      "job1" ∅
    = (Raise ValueError, ∅, []).
Proof.
  split_and!.
  - apply invalid_options_rejected_before_any_call. left. reflexivity.
  - apply invalid_options_rejected_before_any_call. right. left. reflexivity.
  - apply invalid_options_rejected_before_any_call. right. right. left.
    exists (VStr "24"). split_and!; [reflexivity|exact I|discriminate].
  - apply invalid_options_rejected_before_any_call. right. right. left.
    exists (VBool false). split_and!; [reflexivity|exact I|discriminate].
  - apply invalid_options_rejected_before_any_call. right. right. right.
    reflexivity.
Defined.

Lemma font_fallback_unreachable_witness :
  (∃ selected_font,
     dict_find_value
       (opt (convert_array_to_collection example_options) "font_name" (VStr "Arial"))
       (FONT_PATHS good_world) = Ok (Some selected_font)
     ∧ ∀ fs,
         select_font good_world "job1"
           (opt (convert_array_to_collection example_options) "font_name"
                (VStr "Arial")) fs
         = (Ok (Some selected_font), fs, []))
  ∧ ∀ fs,
      Forall (λ ev, is_warning ev = false)
        (process_captioning good_world example_file_url example_caption_url
           "srt" example_options "job1" fs).2.
Proof.
  apply (font_fallback_unreachable good_world example_file_url
           example_caption_url "srt" example_options "job1").
  vm_compute. reflexivity.
Defined.

Lemma get_job_hash_order_independent_witness :
  get_job_hash good_world example_file_url example_caption_url "srt"
    (convert_array_to_collection example_options)
  = get_job_hash good_world example_file_url example_caption_url "srt"
      (convert_array_to_collection (reverse example_options)).
Proof.
  apply (get_job_hash_order_independent good_world example_file_url
           example_caption_url "srt" example_options (reverse example_options)).
  intros k. cbn.
  repeat match goal with
         | |- context [String.eqb k ?s] =>
             destruct (String.eqb_spec k s) as [->|?]; [reflexivity|]
         end.
  reflexivity.
Defined.

(* ================================================================== *)
(** * Successful runs, step by step *)

Lemma lift_Ok_inv {A} (r : result A) fs a fs1 t1 :
  lift r fs = (Ok a, fs1, t1) → r = Ok a ∧ fs1 = fs ∧ t1 = [].
Proof. unfold lift. by intros [= -> -> <-]. Qed.

Lemma emit_Ok_inv ev fs a fs1 t1 :
  emit ev fs = (Ok a, fs1, t1) → fs1 = fs ∧ t1 = [ev].
Proof. unfold emit. by intros [= <- <-]. Qed.

Lemma put_file_Ok_inv p text fs a fs1 t1 :
  put_file p text fs = (Ok a, fs1, t1) → fs1 = <[p := text]> fs ∧ t1 = [].
Proof. unfold put_file. by intros [= <- <-]. Qed.

Lemma get_files_Ok_inv fs a fs1 t1 :
  get_files fs = (Ok a, fs1, t1) → a = fs ∧ fs1 = fs ∧ t1 = [].
Proof. unfold get_files. by intros [= <- <- <-]. Qed.

Lemma write_file_Ok_inv w p text fs a fs1 t1 :
  write_file w p text fs = (Ok a, fs1, t1) →
  os_refuses w OpenWrite p = false ∧ fs1 = <[p := text]> fs ∧ t1 = [].
Proof.
  unfold write_file, put_file. destruct (os_refuses w OpenWrite p); [done|].
  destruct (write_fails w p text); [done|]. by intros [= <- <-].
Qed.

Lemma os_remove_Ok_inv w p fs a fs1 t1 :
  os_remove w p fs = (Ok a, fs1, t1) →
  is_Some (fs !! p) ∧ fs1 = delete p fs ∧ t1 = [].
Proof.
  unfold os_remove. destruct (os_refuses w Remove p); [done|].
  destruct (fs !! p) eqn:Hp; [|done]. by intros [= <- <-].
Qed.

Lemma select_font_files w job_id font_name fs r fs1 t1 :
  select_font w job_id font_name fs = (r, fs1, t1) →
  fs1 = fs ∧ Forall (λ ev, is_warning ev = true) t1.
Proof.
  unfold select_font.
  destruct (dict_find_value font_name (FONT_PATHS w)) as [[path|]|e].
  - rewrite run_bind_lift_Ok. by intros [= <- <- <-].
  - rewrite run_bind_lift_Ok. intros [= <- <- <-]. by repeat constructor.
  - rewrite run_bind_lift_Raise. by intros [= <- <- <-].
Qed.

(** One step of the inversion of a successful sequence: the first
    computation succeeded, and what it did is read off its definition. *)
Ltac run_step H :=
  let a := fresh "a" in
  let fs1 := fresh "fs" in
  let t1 := fresh "t" in
  let t2 := fresh "t" in
  let H1 := fresh "Hstep" in
  apply run_bind_Ok_inv in H as (a & fs1 & t1 & t2 & H1 & H & ->);
  first
    [ apply emit_Ok_inv in H1 as [-> ->]
    | apply put_file_Ok_inv in H1 as [-> ->]
    | apply get_files_Ok_inv in H1 as (-> & -> & ->)
    | apply lift_Ok_inv in H1 as (H1 & -> & ->)
    | apply write_file_Ok_inv in H1 as (H1 & -> & ->)
    | apply os_remove_Ok_inv in H1 as (H1 & -> & ->)
    | idtac ].

Lemma filter_none {A} (P : A → Prop) `{∀ x, Decision (P x)} (l : list A) :
  Forall (λ x, ¬ P x) l → filter P l = [].
Proof.
  induction 1 as [|x l Hx Hl IH]; [done|]. by rewrite filter_cons_False.
Qed.

(** What a run of the pipeline that returns has done. *)
Lemma run_pipeline_Ok_inv w file_url caption_srt caption_type options job_id
    cache_path fs r fs' evs :
  run_pipeline w file_url caption_srt caption_type options job_id cache_path fs
  = (Ok r, fs', evs) →
  ∃ video_path video fs_sub rendered output_filename,
    download_file w file_url STORAGE_PATH = Ok (video_path, video)
    ∧ upload_to_gcs w (<[output_path_of job_id := rendered]> fs_sub)
        (output_path_of job_id) (GCP_BUCKET_NAME w) = Ok output_filename
    ∧ os_refuses w OpenWrite cache_path = false
    ∧ r = VStr output_filename
    ∧ fs' = <[cache_path :=
                json_dumps false (VDict [("output_filename", VStr output_filename)])]>
              (delete (output_path_of job_id)
                 (delete (srt_path_of job_id caption_type)
                    (delete video_path
                       (<[output_path_of job_id := rendered]> fs_sub))))
    ∧ length (filter (λ ev, is_render ev = true) evs) = 1%nat.
Proof.
  unfold run_pipeline. cbv zeta. intros Hrun.
  do 17 run_step Hrun.
  apply select_font_files in Hstep1 as [-> Hfont].
  run_step Hrun. apply (lift_Ok_inv (Ok _)) in Hrun as ([= <-] & -> & ->).
  destruct a0 as [video_path video]. simpl in *.
  exists video_path, video, fs0, a7, a10. split_and!; try done.
  assert (Forall (λ ev, is_http_get ev = true) t) as Hsub.
  { specialize (emits_only_materialize_subtitle (λ ev, is_http_get ev = true)
                  w caption_srt caption_type
                  (if String.eqb caption_type "ass"
                   then ass_caption_style (generate_style_line options)
                   else EmptyString)
                  (opt options "one_word_highlight" (VBool false))
                  (srt_path_of job_id caption_type) (λ _, eq_refl)
                  (<[video_path := video]> fs)) as Hm.
    by rewrite Hstep0 in Hm. }
  rewrite filter_cons_False by done. rewrite !filter_app.
  rewrite (filter_none _ t), (filter_none _ t0).
  - reflexivity.
  - eapply Forall_impl; [exact Hfont|]. intros [] ?; simpl in *; congruence.
  - eapply Forall_impl; [exact Hsub|]. intros [] ?; simpl in *; congruence.
Qed.

(* ================================================================== *)
(** * Cache hit and cache miss *)

Lemma run_bind_path_exists {B} p (f : bool → M B) fs :
  (path_exists p ≫= f) fs = f (bool_decide (is_Some (fs !! p))) fs.
Proof.
  unfold mbind, M_mbind, M_bind, path_exists.
  by destruct (f _ fs) as [[r fs2] t2].
Qed.

Lemma process_captioning_validated w file_url caption_srt caption_type options
    job_id fs :
  validate_options w (convert_array_to_collection options) = Ok () →
  process_captioning w file_url caption_srt caption_type options job_id fs
  = let cache_path :=
      cache_path_of (get_job_hash w file_url caption_srt caption_type
                       (convert_array_to_collection options)) in
    if bool_decide (is_Some (fs !! cache_path))
    then read_cache w cache_path fs
    else run_pipeline w file_url caption_srt caption_type
           (convert_array_to_collection options) job_id cache_path fs.
Proof.
  intros Hval. unfold process_captioning, log_and_reraise. cbv zeta.
  rewrite Hval, run_bind_lift_Ok, run_bind_path_exists.
  by case_bool_decide.
Qed.

Lemma process_captioning_Ok_validated w file_url caption_srt caption_type
    options job_id fs r fs' evs :
  process_captioning w file_url caption_srt caption_type options job_id fs
  = (Ok r, fs', evs) →
  validate_options w (convert_array_to_collection options) = Ok ().
Proof.
  destruct (validate_options w (convert_array_to_collection options))
    as [[]|e] eqn:Hval; [done|].
  by rewrite (process_captioning_invalid _ _ _ _ _ _ _ _ Hval).
Qed.

Lemma read_cache_run w cache_path fs :
  read_cache w cache_path fs
  = (if os_refuses w OpenRead cache_path then Raise OSError
     else match fs !! cache_path with
          | Some text =>
              cached_result ← json_load w text;
              subscript cached_result "output_filename"
          | None => Raise OSError
          end,
     fs, []).
Proof.
  unfold read_cache.
  destruct (os_refuses w OpenRead cache_path) eqn:Hos.
  { erewrite run_bind_Raise; [done|]. unfold read_file. by rewrite Hos. }
  destruct (fs !! cache_path) as [text|] eqn:Hfs.
  - erewrite run_bind_Ok; [|unfold read_file; by rewrite Hos, Hfs].
    by destruct (json_load w text) as [cached_result|e].
  - erewrite run_bind_Raise; [done|]. unfold read_file. by rewrite Hos, Hfs.
Qed.

(* ================================================================== *)
(** * Cleanup of the staging files *)

(** C1 (counterexample).  The upload fails: the call raises and the
    downloaded video, the subtitle file and the rendered output are all
    still in the working directory. *)
Lemma staging_files_left_on_upload_failure :
  upload_failure_run.1.1 = Raise (OtherError "StorageError")
  ∧ upload_failure_run.1.2 !! "/tmp/video.mp4" = Some "video"
  ∧ upload_failure_run.1.2 !! srt_path_of "job1" "srt" = Some example_srt
  ∧ upload_failure_run.1.2 !! output_path_of "job1" = Some "captioned video".
Proof. split_and!; vm_compute; reflexivity. Qed.

(** C1 (amended).  When [process_captioning] returns, no staging file is
    left: on a cache hit the working directory is as it was and nothing was
    fetched, and on a cache miss the downloaded video, the subtitle file and
    the rendered output have been removed (a staging path that is also the
    path of the cache record holds that record). *)
Theorem staging_files_removed_on_success (w : World)
    (file_url caption_srt caption_type : string)
    (options : list (string * value)) (job_id : string)
    (fs fs' : files) (r : value) (evs : list event) :
  process_captioning w file_url caption_srt caption_type options job_id fs
  = (Ok r, fs', evs) →
  let cache_path :=
    cache_path_of (get_job_hash w file_url caption_srt caption_type
                     (convert_array_to_collection options)) in
  (is_Some (fs !! cache_path) ∧ fs' = fs ∧ evs = [])
  ∨ (fs !! cache_path = None
     ∧ ∃ video_path video,
         download_file w file_url STORAGE_PATH = Ok (video_path, video)
         ∧ ∀ p, p ∈ [video_path; srt_path_of job_id caption_type;
                     output_path_of job_id] →
                p ≠ cache_path → fs' !! p = None).
Proof.
  intros Hrun cache_path.
  pose proof (process_captioning_Ok_validated _ _ _ _ _ _ _ _ _ _ Hrun) as Hval.
  rewrite (process_captioning_validated _ _ _ _ _ _ _ Hval) in Hrun.
  cbv zeta in Hrun. fold cache_path in Hrun.
  case_bool_decide as Hhit.
  - left. rewrite read_cache_run in Hrun. by injection Hrun as _ <- <-.
  - right. split; [by apply eq_None_not_Some|].
    apply run_pipeline_Ok_inv
      in Hrun as (video_path & video & fs_sub & rendered & output_filename
                  & Hdl & _ & _ & _ & -> & _).
    exists video_path, video. split; [done|].
    intros p Hp Hne. rewrite lookup_insert_ne by done.
    repeat (apply elem_of_cons in Hp as [->|Hp]).
    + rewrite !lookup_delete. repeat case_decide; try done.
    + rewrite !lookup_delete. repeat case_decide; try done.
    + rewrite !lookup_delete. repeat case_decide; try done.
    + by apply elem_of_nil in Hp.
Qed.

Lemma good_run_eq : good_run = (Ok (VStr example_ref), good_run.1.2, good_run.2).
Proof. vm_compute. reflexivity. Qed.

Lemma staging_files_removed_on_success_witness :
  (is_Some ((∅ : files) !! example_cache_path)
   ∧ good_run.1.2 = ∅ ∧ good_run.2 = [])
  ∨ ((∅ : files) !! example_cache_path = None
     ∧ ∃ video_path video,
         download_file good_world example_file_url STORAGE_PATH
         = Ok (video_path, video)
         ∧ ∀ p, p ∈ [video_path; srt_path_of "job1" "srt"; output_path_of "job1"] →
                p ≠ example_cache_path → good_run.1.2 !! p = None).
Proof.
  apply (staging_files_removed_on_success good_world example_file_url
           example_caption_url "srt" example_options "job1" ∅
           good_run.1.2 (VStr example_ref) good_run.2).
  exact good_run_eq.
Defined.

(* ================================================================== *)
(** * Cache errors *)

(** C5 (counterexample).  With a corrupt record at the cache path the call
    raises the reader's error and nothing is downloaded, rendered or
    uploaded; with a cache path that cannot be written the call raises
    [OSError] after the render and the upload were done. *)
Lemma cache_errors_abort_the_call :
  corrupt_cache_run
  = (Raise ValueError, {[ example_cache_path := "not json" ]}, [])
  ∧ cache_write_failure_run.1.1 = Raise OSError
  ∧ length (filter (λ ev, is_render ev = true) cache_write_failure_run.2) = 1%nat.
Proof. split_and!; vm_compute; reflexivity. Qed.

(** C5 (amended).  Cache errors are not absorbed.  With valid options: when
    the cache path exists and the record cannot be opened, parsed or
    subscripted, the call raises that error, leaves the working directory
    as it was and calls no collaborator; and when the cache path does not
    exist and cannot be written, the call does not return. *)
Theorem cache_errors_propagate (w : World)
    (file_url caption_srt caption_type : string)
    (options : list (string * value)) (job_id : string) (fs : files) :
  validate_options w (convert_array_to_collection options) = Ok () →
  let cache_path :=
    cache_path_of (get_job_hash w file_url caption_srt caption_type
                     (convert_array_to_collection options)) in
  let run :=
    process_captioning w file_url caption_srt caption_type options job_id fs in
  (∀ text e,
     fs !! cache_path = Some text →
     os_refuses w OpenRead cache_path = false →
     (cached_result ← json_load w text;
      subscript cached_result "output_filename") = Raise e →
     run = (Raise e, fs, []))
  ∧ (is_Some (fs !! cache_path) →
     os_refuses w OpenRead cache_path = true →
     run = (Raise OSError, fs, []))
  ∧ (fs !! cache_path = None →
     os_refuses w OpenWrite cache_path = true →
     ∃ e, run.1.1 = Raise e).
Proof.
  intros Hval cache_path run. subst run.
  rewrite (process_captioning_validated _ _ _ _ _ _ _ Hval).
  cbv zeta. fold cache_path. split_and!.
  - intros text e Hfs Hos He.
    rewrite bool_decide_eq_true_2 by (by rewrite Hfs).
    by rewrite read_cache_run, Hos, Hfs, He.
  - intros Hfs Hos.
    rewrite bool_decide_eq_true_2 by done.
    by rewrite read_cache_run, Hos.
  - intros Hfs Hos.
    rewrite bool_decide_eq_false_2 by (rewrite Hfs; by intros [? ?]).
    destruct (run_pipeline _ _ _ _ _ _ _ _) as [[[r|e] fs'] evs] eqn:Hrun;
      [|by eexists].
    apply run_pipeline_Ok_inv in Hrun as (? & ? & ? & ? & ? & _ & _ & Hw & _).
    congruence.
Qed.

(** The theorem at the two example runs: a corrupt record, and a cache path
    that cannot be written. *)
Lemma cache_errors_propagate_witness :
  corrupt_cache_run
  = (Raise ValueError, {[ example_cache_path := "not json" ]}, [])
  ∧ ∃ e, cache_write_failure_run.1.1 = Raise e.
Proof.
  split.
  - apply (proj1 (cache_errors_propagate corrupt_cache_world example_file_url
                    example_caption_url "srt" example_options "job1"
                    {[ example_cache_path := "not json" ]}
                    ltac:(vm_compute; reflexivity))
                 "not json" ValueError);
      vm_compute; reflexivity.
  - apply (proj2 (proj2 (cache_errors_propagate cache_write_fails_world
                           example_file_url example_caption_url "srt"
                           example_options "job1" ∅
                           ltac:(vm_compute; reflexivity))));
      vm_compute; reflexivity.
Defined.

(* ================================================================== *)
(** * Cache idempotence *)

(** C7.  After a run that missed the cache and returned, a second call whose
    inputs give the same fingerprint returns the same output reference,
    leaves the working directory as it is and calls no collaborator, and the
    first run called the renderer once.  The second call must be able to
    open the cache record, and the JSON reader must read back the record
    that [json.dump] wrote. *)
Theorem cache_hit_after_first_run (w : World)
    (file_url caption_srt caption_type : string)
    (options : list (string * value)) (job_id : string)
    (file_url2 caption_srt2 caption_type2 : string)
    (options2 : list (string * value)) (job_id2 : string)
    (fs fs1 : files) (r : value) (evs1 : list event) :
  fs !! cache_path_of (get_job_hash w file_url caption_srt caption_type
                         (convert_array_to_collection options)) = None →
  process_captioning w file_url caption_srt caption_type options job_id fs
  = (Ok r, fs1, evs1) →
  get_job_hash w file_url2 caption_srt2 caption_type2
    (convert_array_to_collection options2)
  = get_job_hash w file_url caption_srt caption_type
      (convert_array_to_collection options) →
  validate_options w (convert_array_to_collection options2) = Ok () →
  os_refuses w OpenRead
    (cache_path_of (get_job_hash w file_url caption_srt caption_type
                      (convert_array_to_collection options))) = false →
  json_load w (json_dumps false (VDict [("output_filename", r)]))
  = Ok (VDict [("output_filename", r)]) →
  process_captioning w file_url2 caption_srt2 caption_type2 options2 job_id2 fs1
  = (Ok r, fs1, [])
  ∧ length (filter (λ ev, is_render ev = true) evs1) = 1%nat.
Proof.
  intros Hmiss Hrun Hhash Hval2 Hos Hjson.
  pose proof (process_captioning_Ok_validated _ _ _ _ _ _ _ _ _ _ Hrun) as Hval.
  rewrite (process_captioning_validated _ _ _ _ _ _ _ Hval) in Hrun.
  cbv zeta in Hrun.
  rewrite bool_decide_eq_false_2 in Hrun by (rewrite Hmiss; by intros [? ?]).
  apply run_pipeline_Ok_inv
    in Hrun as (video_path & video & fs_sub & rendered & output_filename
                & _ & _ & _ & -> & -> & Hrender).
  split; [|done].
  rewrite (process_captioning_validated _ _ _ _ _ _ _ Hval2). cbv zeta.
  rewrite Hhash.
  rewrite bool_decide_eq_true_2 by (by rewrite lookup_insert_eq).
  rewrite read_cache_run, Hos, lookup_insert_eq, Hjson.
  reflexivity.
Qed.

Lemma cache_hit_after_first_run_witness :
  process_captioning good_world example_file_url example_caption_url "srt"
    (reverse example_options) "job2" good_run.1.2
  = (Ok (VStr example_ref), good_run.1.2, [])
  ∧ length (filter (λ ev, is_render ev = true) good_run.2) = 1%nat.
Proof.
  apply (cache_hit_after_first_run good_world
           example_file_url example_caption_url "srt" example_options "job1"
           example_file_url example_caption_url "srt" (reverse example_options)
           "job2" ∅ good_run.1.2 (VStr example_ref) good_run.2).
  - reflexivity.
  - exact good_run_eq.
  - vm_compute. reflexivity.
  - vm_compute. reflexivity.
  - reflexivity.
  - vm_compute. reflexivity.
Defined.

(* ================================================================== *)
(** * Materializing a remote subtitle file *)

(** C4 (the code departs from the claim).  A job whose captions are a
    remote SubRip file, with word-highlight requested: the fetched bytes are
    stored as they came, although the expansion of that content does not
    even return, and the job goes on to render and upload and returns the
    reference.  The run whose upload fails shows the file the renderer was
    given: the fetched content, unexpanded.  The sibling branches do apply
    [process_subtitle_content]: the same job with the captions inline, and
    the same remote file declared as ass, stop at its error. *)
Lemma remote_srt_stored_unexpanded :
  materialize_subtitle good_world example_caption_url "srt" EmptyString
    (VBool true) (srt_path_of "job1" "srt") ∅
  = (Ok (), {[ srt_path_of "job1" "srt" := example_srt ]},
     [EvHttpGet example_caption_url])
  ∧ process_subtitle_content example_srt (VBool true) = Raise ValueError
  ∧ good_run.1.1 = Ok (VStr example_ref)
  ∧ kind_of <$> good_run.2 = [KDownload; KHttpGet; KProbe; KRender; KUpload]
  ∧ upload_failure_run.1.2 !! srt_path_of "job1" "srt" = Some example_srt
  ∧ process_captioning good_world example_file_url example_srt "srt"
      example_options "job1" ∅
    = (Raise ValueError, {[ path_join STORAGE_PATH "video.mp4" := "video" ]},
       [EvDownload example_file_url STORAGE_PATH])
  ∧ process_captioning good_world example_file_url example_caption_url "ass"
      example_options "job1" ∅
    = (Raise ValueError, {[ path_join STORAGE_PATH "video.mp4" := "video" ]},
       [EvDownload example_file_url STORAGE_PATH; EvHttpGet example_caption_url]).
Proof. split_and!; vm_compute; reflexivity. Qed.

(* ================================================================== *)
(** * Further properties of the subtitle expansion and the option list *)

Lemma append_assoc_string (a b c : string) : (a +:+ b) +:+ c = a +:+ (b +:+ c).
Proof.
  induction a as [|x a IH]; [done|].
  change (String x ((a +:+ b) +:+ c) = String x (a +:+ (b +:+ c))).
  by rewrite IH.
Qed.

Lemma append_nil_r (a : string) : a +:+ EmptyString = a.
Proof.
  induction a as [|x a IH]; [done|].
  change (String x (a +:+ EmptyString) = String x a). by rewrite IH.
Qed.

Lemma rev_app_append (a b : string) :
  String.rev_app a b = String.rev a +:+ b.
Proof.
  unfold String.rev. revert b. induction a as [|x a IH]; intros b; [done|].
  cbn [String.rev_app]. rewrite IH, (IH (String x EmptyString)).
  by rewrite append_assoc_string.
Qed.

Lemma split_go_nonempty sep skip acc s : split_go sep skip acc s ≠ [].
Proof.
  revert skip acc. induction s as [|x s IH]; intros skip acc; simpl; [done|].
  destruct skip; [|by apply IH]. case_match; [done|by apply IH].
Qed.

Lemma str_join_cons sep p rest :
  rest ≠ [] → str_join sep (p :: rest) = p +:+ sep +:+ str_join sep rest.
Proof. by destruct rest. Qed.

(** Joining the pieces of a split on one character gives the text back. *)
Lemma str_join_split_go c s acc :
  str_join (String c EmptyString) (split_go (String c EmptyString) 0 acc s)
  = String.rev acc +:+ s.
Proof.
  revert acc. induction s as [|x s IH]; intros acc.
  - cbn [split_go str_join]. by rewrite append_nil_r.
  - cbn [split_go]. rewrite prefix_one_char.
    destruct (Ascii.eqb_spec c x) as [<-|Hne].
    + rewrite str_join_cons by apply split_go_nonempty.
      change (String.length (String c EmptyString) - 1)%nat with 0%nat.
      by rewrite IH.
    + rewrite IH. unfold String.rev at 1. cbn [String.rev_app].
      by rewrite rev_app_append, append_assoc_string.
Qed.

Lemma str_join_split c s :
  str_join (String c EmptyString) (str_split s (String c EmptyString)) = s.
Proof. apply str_join_split_go. Qed.

Lemma mapM_result_no_cue lines :
  existsb is_cue_line lines = false →
  mapM_result process_line lines = Ok (map (λ line, [line]) lines).
Proof.
  induction lines as [|line lines IH]; simpl; [done|].
  intros [Hline Hrest]%orb_false_iff.
  by rewrite (process_line_other _ Hline), (IH Hrest).
Qed.

Lemma concat_singletons {A} (l : list A) : concat (map (λ x, [x]) l) = l.
Proof. induction l as [|x l IH]; simpl; [done|]. by rewrite IH. Qed.

(** With word-highlight enabled, [process_subtitle_content] never returns an
    expanded track: it raises [ValueError] when a line of the content is a
    cue line, and gives the content back otherwise; with word-highlight
    disabled it gives the content back. *)
Theorem process_subtitle_content_returns_input_or_raises content owh :
  process_subtitle_content content owh
  = if truthy owh && existsb is_cue_line (str_split content nl)
    then Raise ValueError else Ok content.
Proof.
  destruct (truthy owh) eqn:Ht; simpl.
  - destruct (existsb is_cue_line (str_split content nl)) eqn:Hex.
    + apply existsb_exists in Hex as (line & Hin & Hcue).
      apply process_subtitle_content_cue_raises with line; [done| |done].
      by apply list_elem_of_In.
    + unfold process_subtitle_content. rewrite Ht. simpl negb. cbv iota.
      rewrite (mapM_result_no_cue _ Hex), bind_Ok, concat_singletons.
      f_equal. apply (str_join_split "010"%char).
  - unfold process_subtitle_content. by rewrite Ht.
Qed.

Lemma dict_get_app {V} (a b : dict V) k :
  dict_get k (a ++ b)
  = match dict_get k a with Some v => Some v | None => dict_get k b end.
Proof.
  induction a as [|[k' v'] a IH]; simpl; [done|].
  by destruct (String.eqb k k').
Qed.

Lemma dict_get_fold_set (options : list (string * value)) (acc : dict value) k :
  dict_get k (fold_left (λ acc item, dict_set item.1 item.2 acc) options acc)
  = match dict_get k (reverse options) with
    | Some v => Some v
    | None => dict_get k acc
    end.
Proof.
  revert acc. induction options as [|[k' v'] options IH]; intros acc; simpl.
  - done.
  - rewrite IH, reverse_cons, dict_get_app, dict_get_set. simpl.
    destruct (dict_get k (reverse options)); [done|].
    by destruct (String.eqb k k').
Qed.

(** Of two items of the option list with the same name the later one wins:
    the mapping has, under every name, the value of the last item with that
    name. *)
Theorem convert_array_to_collection_last_wins (options : list (string * value)) k :
  dict_get k (convert_array_to_collection options) = dict_get k (reverse options).
Proof.
  unfold convert_array_to_collection. rewrite dict_get_fold_set.
  by destruct (dict_get k (reverse options)).
Qed.

(** With no option given every field of the style line has its default:
    Arial, size 24, white on black, alignment 2, margins 10, encoding 1. *)
Theorem generate_style_line_defaults :
  generate_style_line []
  = "Style: Default,Arial,24,&H00FFFFFF,&H00000000,&H00000000,0,0,0,0,100,100,0,0,1,1,0,2,10,10,10,1,False".
Proof. vm_compute. reflexivity. Qed.

(* ================================================================== *)
(** * What validation accepts *)

(** [validate_options] accepts exactly the options that have a [font_name]
    that is a string of the allow-list, a [font_size] that is a positive
    [int] or [True], and a [primary_color] of any value; every other mapping
    makes it raise [ValueError]. *)
Theorem validate_options_accepts_iff (w : World) (options : dict value) :
  (validate_options w options = Ok ()
   ↔ (∃ name, dict_get "font_name" options = Some (VStr name)
              ∧ name ∈ ACCEPTABLE_FONTS w)
     ∧ (∃ v, dict_get "font_size" options = Some v
             ∧ ((∃ n, v = VInt n ∧ 0 < n) ∨ v = VBool true))
     ∧ is_Some (dict_get "primary_color" options))
  ∧ (validate_options w options ≠ Ok () →
     validate_options w options = Raise ValueError).
Proof.
  split; [split|].
  - intros (Hname & Hsize & Hcolor & Hfont & Hint & n & Hn & Hpos)
      %validate_options_Ok_inv.
    unfold opt, dict_get_default, dict_mem in *.
    destruct (dict_get "font_name" options) as [vn|]; [|done].
    destruct (dict_get "font_size" options) as [vs|]; [|done].
    destruct (dict_get "primary_color" options) as [vc|]; [|done].
    simpl in *. split_and!; [| |by eexists].
    + unfold value_in_strs in Hfont.
      apply existsb_exists in Hfont as (name & Hin & Heq).
      destruct vn; try done. simpl in Heq. apply String.eqb_eq in Heq as ->.
      exists name. split; [done|]. by apply list_elem_of_In.
    + exists vs. split; [done|].
      destruct vs as [|[]|m| | | |]; simplify_eq/=; [by right|lia|].
      left. by exists n.
  - intros ((name & Hname & Hin) & (v & Hsize & Hv) & [vc Hcolor]).
    assert (forallb (λ option, dict_mem option options) required_options = true)
      as Hreq.
    { unfold required_options, dict_mem. cbn [forallb].
      by rewrite Hname, Hsize, Hcolor. }
    assert (value_in_strs (opt options "font_name" VNone) (ACCEPTABLE_FONTS w)
            = true) as Hfont.
    { unfold opt, dict_get_default. rewrite Hname. apply existsb_exists.
      exists name. split; [by apply list_elem_of_In|].
      simpl. apply String.eqb_refl. }
    assert (opt options "font_size" VNone = v) as Hv'.
    { unfold opt, dict_get_default. by rewrite Hsize. }
    unfold validate_options. rewrite Hreq, Hfont, Hv'. cbn [negb].
    destruct Hv as [(n & -> & Hn)| ->]; simpl; [|done].
    by destruct (Z.leb_spec n 0); [lia|].
  - intros Hne. destruct (validate_options w options) as [[]|e] eqn:Hval; [done|].
    by rewrite (validate_options_raise_inv _ _ _ Hval).
Qed.

(* ================================================================== *)
(** * The font catalog *)

Lemma find_append {A} (P : A → bool) (l1 l2 : list A) :
  find P (l1 ++ l2)
  = match find P l1 with Some x => Some x | None => find P l2 end.
Proof. induction l1 as [|x l1 IH]; simpl; [done|]. by destruct (P x). Qed.

Lemma find_nothing {A} (P : A → bool) (l : list A) :
  (∀ x, x ∈ l → P x = false) → find P l = None.
Proof.
  induction l as [|x l IH]; intros Hl; simpl; [done|].
  rewrite (Hl x) by left. apply IH. intros y Hy. apply Hl. by right.
Qed.

Lemma font_paths_fold (l : list string) (acc : dict string) name :
  dict_get name
    (fold_left
       (λ acc font_file,
          if endswith font_file ".ttf" || endswith font_file ".TTF"
          then dict_set (splitext_root font_file) (path_join FONTS_DIR font_file) acc
          else acc) l acc)
  = match find (λ font_file,
                  is_font_file font_file
                  && String.eqb name (splitext_root font_file)) (rev l) with
    | Some font_file => Some (path_join FONTS_DIR font_file)
    | None => dict_get name acc
    end.
Proof.
  revert acc. induction l as [|f l IH]; intros acc; [done|].
  cbn [fold_left rev]. rewrite IH, find_append.
  destruct (find _ (rev l)) as [g|]; [done|].
  cbn [find]. unfold is_font_file.
  destruct (endswith f ".ttf" || endswith f ".TTF"); [|done].
  cbn [andb]. rewrite dict_get_set. by destruct (String.eqb name (splitext_root f)).
Qed.

(** The catalog has a font name exactly when the listing of the font
    directory has a file ending in [.ttf] or [.TTF] whose name without the
    extension it is; the path under a name is that of such a file, and of
    two files with the same name the later one in the listing gives the
    path. *)
Theorem font_catalog_from_listing (w : World) (name : string) :
  (name ∈ ACCEPTABLE_FONTS w
   ↔ ∃ font_file, font_file ∈ listdir_fonts w
                  ∧ is_font_file font_file = true
                  ∧ splitext_root font_file = name)
  ∧ (∀ path, dict_get name (FONT_PATHS w) = Some path →
       ∃ font_file, font_file ∈ listdir_fonts w
                    ∧ is_font_file font_file = true
                    ∧ splitext_root font_file = name
                    ∧ path = path_join FONTS_DIR font_file)
  ∧ (∀ before font_file after,
       listdir_fonts w = before ++ font_file :: after →
       is_font_file font_file = true →
       splitext_root font_file = name →
       (∀ later, later ∈ after → is_font_file later = true →
                 splitext_root later ≠ name) →
       dict_get name (FONT_PATHS w) = Some (path_join FONTS_DIR font_file)).
Proof.
  assert (∀ path, dict_get name (FONT_PATHS w) = Some path →
            ∃ font_file, font_file ∈ listdir_fonts w
                         ∧ is_font_file font_file = true
                         ∧ splitext_root font_file = name
                         ∧ path = path_join FONTS_DIR font_file) as Hpath.
  { intros path. unfold FONT_PATHS. rewrite font_paths_fold.
    destruct (find _ _) as [f|] eqn:Hfind; [|done].
    intros [= <-]. apply find_some in Hfind as [Hin [Hfont Heq]%andb_prop].
    exists f. apply String.eqb_eq in Heq. split_and!; try done.
    apply list_elem_of_In. by apply in_rev. }
  split; [split|split; [done|]].
  3: { intros before f after Hlist Hfont Hroot Hlater.
       unfold FONT_PATHS. rewrite font_paths_fold, Hlist.
       rewrite rev_app_distr. cbn [rev]. rewrite <-app_assoc, find_append.
       rewrite find_nothing.
       - cbn [app find]. by rewrite Hfont, <-Hroot, String.eqb_refl.
       - intros g Hg%list_elem_of_In%in_rev%list_elem_of_In.
         destruct (is_font_file g) eqn:Hgf; [|done]. cbn [andb].
         apply String.eqb_neq. intros Heq. by apply (Hlater g). }
  - intros Hin. unfold ACCEPTABLE_FONTS in Hin.
    destruct (dict_get name (FONT_PATHS w)) as [path|] eqn:Hget.
    + destruct (Hpath path eq_refl) as (f & ? & ? & ? & _). by exists f.
    + by apply dict_get_None_keys in Hget.
  - intros (f & Hin & Hfont & Hroot). unfold ACCEPTABLE_FONTS.
    destruct (dict_get name (FONT_PATHS w)) as [path|] eqn:Hget.
    + apply dict_get_Some_elem in Hget. unfold dict_keys.
      change name with ((name, path).1). by apply list_elem_of_fmap_2.
    + exfalso. unfold FONT_PATHS in Hget. rewrite font_paths_fold in Hget.
      destruct (find _ _) as [g|] eqn:Hfind; [done|].
      assert (f ∈ listdir_fonts w) as Hin'%list_elem_of_In%in_rev by done.
      pose proof (find_none _ _ Hfind f Hin') as Hf. simpl in Hf.
      by rewrite Hfont, <-Hroot, String.eqb_refl in Hf.
Qed.

(* ================================================================== *)
(** * Style line *)

(** The style line depends on the seventeen options it reads and on nothing
    else: [border_style], [spacing], [angle], [secondary_color], [blur] and
    [uppercase], which the force-style list of the other dialects takes,
    leave it as it is. *)
Theorem generate_style_line_reads_its_keys (options1 options2 : dict value) :
  (∀ k, k ∈ style_line_keys → dict_get k options1 = dict_get k options2) →
  generate_style_line options1 = generate_style_line options2.
Proof.
  intros Hkeys. unfold generate_style_line, opt, dict_get_default.
  rewrite !Hkeys; [done|unfold style_line_keys; set_solver..].
Qed.

Lemma generate_style_line_reads_its_keys_witness :
  generate_style_line
    (convert_array_to_collection
       (example_options ++ [("border_style", VInt 3); ("spacing", VInt 2);
                            ("angle", VInt 45)]))
  = generate_style_line (convert_array_to_collection example_options).
Proof.
  apply generate_style_line_reads_its_keys.
  intros k Hk. unfold style_line_keys in Hk.
  repeat (apply elem_of_cons in Hk as [->|Hk]; [reflexivity|]).
  by apply elem_of_nil in Hk.
Defined.

(* ================================================================== *)
(** * Where the staging files go *)

Lemma startswith_append_slash (a b : string) :
  a ≠ EmptyString → startswith (a +:+ b) "/" = startswith a "/".
Proof.
  destruct a as [|c a]; [done|]. intros _. unfold startswith.
  change (String c a +:+ b) with (String c (a +:+ b)).
  by rewrite !prefix_one_char.
Qed.

(** The subtitle file and the rendered output are put directly under
    [STORAGE_PATH], unless the job identifier begins with a slash: then
    [os.path.join] drops [STORAGE_PATH] and the identifier itself is the
    path. *)
Theorem staging_paths_of_job_id (job_id caption_type : string) :
  (startswith job_id "/" = false →
   srt_path_of job_id caption_type
   = STORAGE_PATH +:+ job_id +:+ "." +:+ caption_type
   ∧ output_path_of job_id = STORAGE_PATH +:+ job_id +:+ "_captioned.mp4")
  ∧ (startswith job_id "/" = true →
     srt_path_of job_id caption_type = job_id +:+ "." +:+ caption_type
     ∧ output_path_of job_id = job_id +:+ "_captioned.mp4").
Proof.
  unfold srt_path_of, output_path_of, path_join. split; intros Hslash.
  - destruct job_id as [|c job_id]; [done|].
    rewrite !startswith_append_slash, Hslash by done. done.
  - rewrite !startswith_append_slash, Hslash by (by destruct job_id). done.
Qed.
(* ================================================================== *)
(** * Files a computation leaves alone *)

Section Untouched.
Context (p : string).

Lemma untouched_bind {A B} (m : M A) (f : A → M B) :
  untouched p m → (∀ a, untouched p (f a)) → untouched p (m ≫= f).
Proof.
  intros Hm Hf fs. specialize (Hm fs). unfold mbind, M_mbind, M_bind.
  destruct (m fs) as [[[a|e] fs1] t1]; [|done].
  specialize (Hf a fs1). destruct (f a fs1) as [[r fs2] t2].
  simpl in *. congruence.
Qed.

Lemma untouched_bind_lift {A B} (r : result A) (f : A → M B) :
  (∀ a, r = Ok a → untouched p (f a)) → untouched p (lift r ≫= f).
Proof.
  intros Hf fs. destruct r as [a|e]; [|done].
  rewrite run_bind_lift_Ok. by apply Hf.
Qed.

Lemma untouched_same_files {A} (m : M A) :
  (∀ fs, (m fs).1.2 = fs) → untouched p m.
Proof. intros Hm fs. by rewrite Hm. Qed.

Lemma untouched_lift {A} (r : result A) : untouched p (lift r).
Proof. by apply untouched_same_files. Qed.

Lemma untouched_ret {A} (a : A) : untouched p (mret a).
Proof. by apply untouched_same_files. Qed.

Lemma untouched_emit ev : untouched p (emit ev).
Proof. by apply untouched_same_files. Qed.

Lemma untouched_get_files : untouched p get_files.
Proof. by apply untouched_same_files. Qed.

Lemma untouched_path_exists q : untouched p (path_exists q).
Proof. by apply untouched_same_files. Qed.

Lemma untouched_read_file w q : untouched p (read_file w q).
Proof.
  apply untouched_same_files. intros fs. unfold read_file.
  by repeat case_match.
Qed.

Lemma untouched_select_font w job_id font_name :
  untouched p (select_font w job_id font_name).
Proof.
  apply untouched_same_files. intros fs.
  destruct (select_font w job_id font_name fs) as [[r fs1] t1] eqn:Hsel.
  by apply select_font_files in Hsel as [-> _].
Qed.

Lemma untouched_put_file q text : p ≠ q → untouched p (put_file q text).
Proof. intros Hne fs. unfold put_file. simpl. by rewrite lookup_insert_ne. Qed.

Lemma untouched_write_file w q text : p ≠ q → untouched p (write_file w q text).
Proof.
  intros Hne fs. unfold write_file. destruct (os_refuses w OpenWrite q); [done|].
  destruct (write_fails w q text); [|by apply untouched_put_file].
  simpl. by rewrite lookup_insert_ne.
Qed.

Lemma untouched_os_remove w q : p ≠ q → untouched p (os_remove w q).
Proof.
  intros Hne fs. unfold os_remove. repeat case_match; try done.
  simpl. by rewrite lookup_delete_ne.
Qed.

Lemma untouched_materialize_subtitle w caption_srt caption_type caption_style
    one_word_highlight srt_path :
  p ≠ srt_path →
  untouched p (materialize_subtitle w caption_srt caption_type caption_style
                 one_word_highlight srt_path).
Proof.
  intros Hne. unfold materialize_subtitle.
  repeat first
    [ apply untouched_bind; [|intros ?]
    | apply untouched_emit
    | apply untouched_lift
    | by apply untouched_write_file
    | case_match ].
Qed.

Lemma untouched_read_cache w cache_path : untouched p (read_cache w cache_path).
Proof.
  unfold read_cache.
  repeat first
    [ apply untouched_bind; [|intros ?]
    | apply untouched_read_file
    | apply untouched_lift ].
Qed.

(** The steps of the pipeline before the cache record is written. *)
Lemma untouched_on_raise_bind {A B} w (m : M A) (f : A → M B) :
  untouched p m → (∀ a, untouched_on_raise w p (f a)) →
  untouched_on_raise w p (m ≫= f).
Proof.
  intros Hm Hf fs. specialize (Hm fs). unfold mbind, M_mbind, M_bind.
  destruct (m fs) as [[[a|e] fs1] t1]; [|right; by left].
  specialize (Hf a fs1). destruct (f a fs1) as [[r fs2] t2].
  simpl in *. destruct Hf as [?|[Hf|Hf]]; [by left|right; left|right; by right].
  congruence.
Qed.

Lemma untouched_on_raise_bind_lift {A B} w (r : result A) (f : A → M B) :
  (∀ a, r = Ok a → untouched_on_raise w p (f a)) →
  untouched_on_raise w p (lift r ≫= f).
Proof.
  intros Hf fs. destruct r as [a|e]; [|right; by left].
  rewrite run_bind_lift_Ok. by apply Hf.
Qed.

Lemma untouched_on_raise_last_write {A} w text (a : A) :
  untouched_on_raise w p (write_file w p text ≫= λ _, mret a).
Proof.
  intros fs. unfold mbind, M_mbind, M_bind, write_file, put_file.
  destruct (os_refuses w OpenWrite p); [right; by left|].
  destruct (write_fails w p text) as [rest|] eqn:Hfail.
  - right. right. exists text, rest. split; [done|]. simpl.
    by rewrite lookup_insert_eq.
  - left. by eexists.
Qed.
End Untouched.

Lemma untouched_run_pipeline w file_url caption_srt caption_type options job_id
    cache_path p :
  p ≠ srt_path_of job_id caption_type →
  p ≠ output_path_of job_id →
  p ≠ cache_path →
  (∀ video_path video,
     download_file w file_url STORAGE_PATH = Ok (video_path, video) →
     p ≠ video_path) →
  untouched p (run_pipeline w file_url caption_srt caption_type options job_id
                 cache_path).
Proof.
  intros Hsrt Hout Hcache Hvideo. unfold run_pipeline. cbv zeta.
  apply untouched_bind; [apply untouched_emit|intros _].
  apply untouched_bind_lift. intros [video_path video] Hdl.
  specialize (Hvideo _ _ Hdl). simpl.
  repeat first
    [ apply untouched_emit
    | apply untouched_lift
    | apply untouched_ret
    | apply untouched_get_files
    | apply untouched_select_font
    | by apply untouched_put_file
    | by apply untouched_write_file
    | by apply untouched_os_remove
    | by apply untouched_materialize_subtitle
    | apply untouched_bind; [|intros ?] ].
Qed.

(** A call of [process_captioning] leaves every file alone that is not the
    downloaded video, the subtitle file, the rendered output or the cache
    record: whatever the outcome, such a path has after the call what it
    had before. *)
Theorem process_captioning_touches_only_its_files (w : World)
    (file_url caption_srt caption_type : string)
    (options : list (string * value)) (job_id : string) (p : string) :
  p ≠ srt_path_of job_id caption_type →
  p ≠ output_path_of job_id →
  p ≠ cache_path_of (get_job_hash w file_url caption_srt caption_type
                       (convert_array_to_collection options)) →
  (∀ video_path video,
     download_file w file_url STORAGE_PATH = Ok (video_path, video) →
     p ≠ video_path) →
  ∀ fs,
    (process_captioning w file_url caption_srt caption_type options job_id fs).1.2
    !! p = fs !! p.
Proof.
  intros Hsrt Hout Hcache Hvideo.
  change (untouched p (process_captioning w file_url caption_srt caption_type
                         options job_id)).
  unfold process_captioning, log_and_reraise. cbv zeta.
  apply untouched_bind; [apply untouched_lift|intros _].
  apply untouched_bind; [apply untouched_path_exists|intros [|]].
  - apply untouched_read_cache.
  - by apply untouched_run_pipeline.
Qed.

Lemma process_captioning_touches_only_its_files_witness :
  (process_captioning good_world example_file_url example_caption_url "srt"
     example_options "job1" {[ "/home/user/notes.txt" := "keep" ]}).1.2
  !! "/home/user/notes.txt"
  = ({[ "/home/user/notes.txt" := "keep" ]} : files) !! "/home/user/notes.txt".
Proof.
  apply (process_captioning_touches_only_its_files good_world example_file_url
           example_caption_url "srt" example_options "job1"
           "/home/user/notes.txt").
  - vm_compute. discriminate.
  - vm_compute. discriminate.
  - vm_compute. discriminate.
  - intros video_path video. vm_compute. intros [= <- _]. discriminate.
Defined.

(* ================================================================== *)
(** * A failure is not cached *)

Lemma untouched_on_raise_run_pipeline w file_url caption_srt caption_type
    options job_id cache_path :
  cache_path ≠ srt_path_of job_id caption_type →
  cache_path ≠ output_path_of job_id →
  (∀ video_path video,
     download_file w file_url STORAGE_PATH = Ok (video_path, video) →
     cache_path ≠ video_path) →
  untouched_on_raise w cache_path
    (run_pipeline w file_url caption_srt caption_type options job_id cache_path).
Proof.
  intros Hsrt Hout Hvideo. unfold run_pipeline. cbv zeta.
  apply untouched_on_raise_bind; [apply untouched_emit|intros _].
  apply untouched_on_raise_bind_lift. intros [video_path video] Hdl.
  specialize (Hvideo _ _ Hdl). simpl.
  repeat first
    [ apply untouched_on_raise_last_write
    | apply untouched_on_raise_bind_lift; intros ? _
    | apply untouched_on_raise_bind;
        [ first [ apply untouched_emit
                | apply untouched_get_files
                | apply untouched_select_font
                | by apply untouched_put_file
                | by apply untouched_os_remove
                | by apply untouched_materialize_subtitle ]
        | intros ? ] ].
Qed.

(** When a call that found no cache record raises, the cache path holds no
    file afterwards, or it holds what a failed write left there: the file is
    opened for the record by the last step of the run, and only a write
    that fails after that [open] leaves something at the path.  No earlier
    failure does.  (The cache path is taken to be none of the staging
    paths.) *)
Theorem failure_is_not_cached (w : World)
    (file_url caption_srt caption_type : string)
    (options : list (string * value)) (job_id : string)
    (fs fs' : files) (e : exn) (evs : list event) :
  cache_path_of (get_job_hash w file_url caption_srt caption_type
                   (convert_array_to_collection options))
  ≠ srt_path_of job_id caption_type →
  cache_path_of (get_job_hash w file_url caption_srt caption_type
                   (convert_array_to_collection options))
  ≠ output_path_of job_id →
  (∀ video_path video,
     download_file w file_url STORAGE_PATH = Ok (video_path, video) →
     cache_path_of (get_job_hash w file_url caption_srt caption_type
                      (convert_array_to_collection options))
     ≠ video_path) →
  fs !! cache_path_of (get_job_hash w file_url caption_srt caption_type
                         (convert_array_to_collection options)) = None →
  process_captioning w file_url caption_srt caption_type options job_id fs
  = (Raise e, fs', evs) →
  fs' !! cache_path_of (get_job_hash w file_url caption_srt caption_type
                          (convert_array_to_collection options)) = None
  ∨ ∃ text rest,
      write_fails w (cache_path_of (get_job_hash w file_url caption_srt
                                      caption_type
                                      (convert_array_to_collection options)))
        text = Some rest
      ∧ fs' !! cache_path_of (get_job_hash w file_url caption_srt caption_type
                                (convert_array_to_collection options))
        = Some rest.
Proof.
  intros Hsrt Hout Hvideo Hmiss Hrun.
  destruct (validate_options w (convert_array_to_collection options))
    as [[]|e'] eqn:Hval.
  - rewrite (process_captioning_validated _ _ _ _ _ _ _ Hval) in Hrun.
    cbv zeta in Hrun.
    rewrite bool_decide_eq_false_2 in Hrun by (rewrite Hmiss; by intros [? ?]).
    destruct (untouched_on_raise_run_pipeline w file_url caption_srt caption_type
                (convert_array_to_collection options) job_id _ Hsrt Hout Hvideo fs)
      as [[a Ha]|[Hkeep|Htorn]].
    + by rewrite Hrun in Ha.
    + rewrite Hrun in Hkeep. simpl in Hkeep. left. congruence.
    + rewrite Hrun in Htorn. simpl in Htorn. by right.
  - rewrite (process_captioning_invalid _ _ _ _ _ _ _ _ Hval) in Hrun.
    injection Hrun as _ <- _. by left.
Qed.

(** The theorem at the run whose upload fails and at the run whose write of
    the record fails. *)
Lemma failure_is_not_cached_witness :
  (upload_failure_run.1.2 !! example_cache_path = None
   ∨ ∃ text rest,
       write_fails upload_fails_world example_cache_path text = Some rest
       ∧ upload_failure_run.1.2 !! example_cache_path = Some rest)
  ∧ (torn_cache_run.1.2 !! example_cache_path = None
     ∨ ∃ text rest,
         write_fails torn_cache_world example_cache_path text = Some rest
         ∧ torn_cache_run.1.2 !! example_cache_path = Some rest).
Proof.
  split.
  - apply (failure_is_not_cached upload_fails_world example_file_url
             example_caption_url "srt" example_options "job1" ∅
             upload_failure_run.1.2 (OtherError "StorageError")
             upload_failure_run.2).
    + vm_compute. discriminate.
    + vm_compute. discriminate.
    + intros video_path video. vm_compute. intros [= <- _]. discriminate.
    + reflexivity.
    + vm_compute. reflexivity.
  - apply (failure_is_not_cached torn_cache_world example_file_url
             example_caption_url "srt" example_options "job1" ∅
             torn_cache_run.1.2 OSError torn_cache_run.2).
    + vm_compute. discriminate.
    + vm_compute. discriminate.
    + intros video_path video. vm_compute. intros [= <- _]. discriminate.
    + reflexivity.
    + vm_compute. reflexivity.
Defined.

(** The run whose write of the record fails after the file was opened: the
    job was rendered and uploaded, the call raises, and an empty file stays
    at the cache path. *)
Example torn_cache_run_leaves_empty_record :
  torn_cache_run.1.1 = Raise OSError
  ∧ torn_cache_run.1.2 = {[ example_cache_path := EmptyString ]}
  ∧ kind_of <$> torn_cache_run.2 = [KDownload; KHttpGet; KProbe; KRender; KUpload].
Proof. split_and!; vm_compute; reflexivity. Qed.

(* ================================================================== *)
(** * The order of the calls *)

Lemma follows_order_bind {A B} l1 l2 (m : M A) (f : A → M B) :
  follows_order l1 m → (∀ a, follows_order l2 (f a)) →
  follows_order (l1 ++ l2) (m ≫= f).
Proof.
  intros Hm Hf fs. specialize (Hm fs). unfold mbind, M_mbind, M_bind.
  destruct (m fs) as [[[a|e] fs1] t1]; simpl in *.
  - specialize (Hf a fs1). destruct (f a fs1) as [[[b|e] fs2] t2]; simpl in *.
    + by rewrite fmap_app, Hm, Hf.
    + rewrite fmap_app, Hm. by apply prefix_app.
  - by apply prefix_app_r.
Qed.

Lemma follows_order_bind_lift {A B} l (r : result A) (f : A → M B) :
  (∀ a, r = Ok a → follows_order l (f a)) → follows_order l (lift r ≫= f).
Proof.
  intros Hf fs. destruct r as [a|e].
  - rewrite run_bind_lift_Ok. by apply Hf.
  - simpl. apply prefix_nil.
Qed.

Lemma follows_order_silent {A} (m : M A) :
  (∀ fs, (m fs).2 = []) → follows_order [] m.
Proof. intros Hm fs. rewrite Hm. by destruct (m fs).1.1. Qed.

Lemma follows_order_emit ev : follows_order [kind_of ev] (emit ev).
Proof. by intros fs. Qed.

Lemma follows_order_eq {A} l l' (m : M A) :
  follows_order l m → l = l' → follows_order l' m.
Proof. by intros Hm <-. Qed.

Lemma follows_order_write_file w p text : follows_order [] (write_file w p text).
Proof.
  apply follows_order_silent. intros fs. unfold write_file.
  by repeat case_match.
Qed.

Lemma follows_order_os_remove w p : follows_order [] (os_remove w p).
Proof.
  apply follows_order_silent. intros fs. unfold os_remove.
  by repeat case_match.
Qed.

Lemma follows_order_materialize_subtitle w caption_srt caption_type
    caption_style one_word_highlight srt_path :
  follows_order (if startswith caption_srt "https" then [KHttpGet] else [])
    (materialize_subtitle w caption_srt caption_type caption_style
       one_word_highlight srt_path).
Proof.
  unfold materialize_subtitle. destruct (startswith caption_srt "https").
  - apply (follows_order_bind [KHttpGet] []); [apply follows_order_emit|intros _].
    apply follows_order_bind_lift. intros response _.
    destruct (String.eqb caption_type "srt" || String.eqb caption_type "vtt").
    + apply follows_order_write_file.
    + apply follows_order_bind_lift. intros ? _. apply follows_order_write_file.
  - apply follows_order_bind_lift. intros ? _. apply follows_order_write_file.
Qed.

Lemma follows_order_run_pipeline w file_url caption_srt caption_type options
    job_id cache_path :
  validate_options w options = Ok () →
  follows_order (pipeline_kinds caption_srt)
    (run_pipeline w file_url caption_srt caption_type options job_id cache_path).
Proof.
  intros Hval. unfold run_pipeline. cbv zeta.
  destruct (select_font_validated _ _ job_id Hval) as (path & _ & Hsel).
  eapply follows_order_eq.
  - eapply (follows_order_bind [KDownload]); [apply follows_order_emit|intros _].
    apply follows_order_bind_lift. intros downloaded _.
    eapply (follows_order_bind []);
      [apply follows_order_silent; by intros|intros _].
    eapply follows_order_bind;
      [apply follows_order_materialize_subtitle|intros _].
    eapply (follows_order_bind []);
      [apply follows_order_silent; intros fs; by rewrite Hsel|intros _].
    eapply (follows_order_bind [KProbe]); [apply follows_order_emit|intros _].
    eapply (follows_order_bind []);
      [apply follows_order_silent; by intros|intros fs].
    apply follows_order_bind_lift. intros total_frames _.
    eapply (follows_order_bind [KRender]); [apply follows_order_emit|intros _].
    apply follows_order_bind_lift. intros rendered _.
    eapply (follows_order_bind []);
      [apply follows_order_silent; by intros|intros _].
    eapply (follows_order_bind [KUpload]); [apply follows_order_emit|intros _].
    eapply (follows_order_bind []);
      [apply follows_order_silent; by intros|intros fs'].
    apply follows_order_bind_lift. intros output_filename _.
    eapply (follows_order_bind []); [apply follows_order_os_remove|intros _].
    eapply (follows_order_bind []); [apply follows_order_os_remove|intros _].
    eapply (follows_order_bind []); [apply follows_order_os_remove|intros _].
    eapply (follows_order_bind []); [apply follows_order_write_file|intros _].
    apply follows_order_silent. by intros.
  - unfold pipeline_kinds. simpl. by destruct (startswith caption_srt "https").
Qed.

(** The collaborators are called in the order download, subtitle fetch (for
    a remote payload), probe, render, upload, each at most once: a call that
    raises has made the first few of these calls, and a call that returns
    has made all of them or, answering from the cache, none. *)
Theorem collaborators_called_in_pipeline_order (w : World)
    (file_url caption_srt caption_type : string)
    (options : list (string * value)) (job_id : string) (fs : files) :
  match (process_captioning w file_url caption_srt caption_type options job_id
           fs).1.1 with
  | Ok _ =>
      kind_of <$> (process_captioning w file_url caption_srt caption_type
                     options job_id fs).2 = []
      ∨ kind_of <$> (process_captioning w file_url caption_srt caption_type
                       options job_id fs).2 = pipeline_kinds caption_srt
  | Raise _ =>
      kind_of <$> (process_captioning w file_url caption_srt caption_type
                     options job_id fs).2 `prefix_of` pipeline_kinds caption_srt
  end.
Proof.
  destruct (validate_options w (convert_array_to_collection options))
    as [[]|e] eqn:Hval.
  - rewrite (process_captioning_validated _ _ _ _ _ _ _ Hval). cbv zeta.
    case_bool_decide.
    + rewrite read_cache_run. simpl. case_match; [by left|apply prefix_nil].
    + pose proof (follows_order_run_pipeline w file_url caption_srt caption_type
                    _ job_id
                    (cache_path_of
                       (get_job_hash w file_url caption_srt caption_type
                          (convert_array_to_collection options))) Hval fs) as Hfo.
      destruct (run_pipeline _ _ _ _ _ _ _ _) as [[[r|e] fs'] evs];
        simpl in *; [by right|done].
  - rewrite (process_captioning_invalid _ _ _ _ _ _ _ _ Hval). simpl.
    apply prefix_nil.
Qed.

(* ================================================================== *)
(** * Inline captions and the word-highlight option *)

Lemma run_pipeline_materialize_raise w file_url caption_srt caption_type options
    job_id cache_path fs video_path video e fs1 t1 :
  download_file w file_url STORAGE_PATH = Ok (video_path, video) →
  materialize_subtitle w caption_srt caption_type
    (if String.eqb caption_type "ass"
     then ass_caption_style (generate_style_line options) else EmptyString)
    (opt options "one_word_highlight" (VBool false))
    (srt_path_of job_id caption_type) (<[video_path := video]> fs)
  = (Raise e, fs1, t1) →
  run_pipeline w file_url caption_srt caption_type options job_id cache_path fs
  = (Raise e, fs1, EvDownload file_url STORAGE_PATH :: t1).
Proof.
  intros Hdl Hmat. unfold run_pipeline. cbv zeta.
  rewrite run_bind_emit, Hdl, run_bind_lift_Ok.
  rewrite (run_bind_Ok _ _ fs () (<[video_path := video]> fs) []) by done.
  cbn [fst snd].
  by rewrite (run_bind_Raise _ _ _ _ _ _ Hmat).
Qed.

(** Inline captions in the srt or vtt dialect with word-highlight requested
    always fail: when a line of the captions is a cue line, the call that
    misses the cache downloads the video and then raises [ValueError],
    leaving the video in the working directory; nothing is fetched, probed,
    rendered or uploaded. *)
Theorem inline_captions_with_highlight_fail (w : World)
    (file_url caption_srt caption_type : string)
    (options : list (string * value)) (job_id : string) (fs : files)
    (video_path video line : string) :
  validate_options w (convert_array_to_collection options) = Ok () →
  fs !! cache_path_of (get_job_hash w file_url caption_srt caption_type
                         (convert_array_to_collection options)) = None →
  download_file w file_url STORAGE_PATH = Ok (video_path, video) →
  startswith caption_srt "https" = false →
  caption_type ≠ "ass" →
  truthy (opt (convert_array_to_collection options) "one_word_highlight"
              (VBool false)) = true →
  line ∈ str_split caption_srt nl →
  is_cue_line line = true →
  process_captioning w file_url caption_srt caption_type options job_id fs
  = (Raise ValueError, <[video_path := video]> fs,
     [EvDownload file_url STORAGE_PATH]).
Proof.
  intros Hval Hmiss Hdl Hinline Hass%String.eqb_neq Hhl Hline Hcue.
  rewrite (process_captioning_validated _ _ _ _ _ _ _ Hval). cbv zeta.
  rewrite bool_decide_eq_false_2 by (rewrite Hmiss; by intros [? ?]).
  apply (run_pipeline_materialize_raise _ _ _ _ _ _ _ _ video_path video);
    [done|].
  unfold materialize_subtitle. rewrite Hinline, Hass.
  change (EmptyString +:+ caption_srt) with caption_srt.
  rewrite (process_subtitle_content_cue_raises _ _ _ Hhl Hline Hcue).
  by rewrite run_bind_lift_Raise.
Qed.

Lemma inline_captions_with_highlight_fail_witness :
  process_captioning good_world example_file_url example_srt "srt"
    example_options "job1" ∅
  = (Raise ValueError, <["/tmp/video.mp4" := "video"]> ∅,
     [EvDownload example_file_url STORAGE_PATH]).
Proof.
  apply (inline_captions_with_highlight_fail good_world example_file_url
           example_srt "srt" example_options "job1" ∅
           "/tmp/video.mp4" "video" example_timing_line).
  - vm_compute. reflexivity.
  - reflexivity.
  - reflexivity.
  - reflexivity.
  - discriminate.
  - reflexivity.
  - vm_compute. right. left.
  - vm_compute. reflexivity.
Defined.

(* ================================================================== *)
(** * The cache record of a run that returns *)

(** A run that misses the cache and returns has returned a string, the
    reference the upload gave, and has left at the cache path the record
    [json.dump] writes for it. *)
Theorem cache_record_after_success (w : World)
    (file_url caption_srt caption_type : string)
    (options : list (string * value)) (job_id : string)
    (fs fs' : files) (r : value) (evs : list event) :
  fs !! cache_path_of (get_job_hash w file_url caption_srt caption_type
                         (convert_array_to_collection options)) = None →
  process_captioning w file_url caption_srt caption_type options job_id fs
  = (Ok r, fs', evs) →
  ∃ output_filename fs_up,
    r = VStr output_filename
    ∧ upload_to_gcs w fs_up (output_path_of job_id) (GCP_BUCKET_NAME w)
      = Ok output_filename
    ∧ fs' !! cache_path_of (get_job_hash w file_url caption_srt caption_type
                              (convert_array_to_collection options))
      = Some (json_dumps false (VDict [("output_filename", r)])).
Proof.
  intros Hmiss Hrun.
  pose proof (process_captioning_Ok_validated _ _ _ _ _ _ _ _ _ _ Hrun) as Hval.
  rewrite (process_captioning_validated _ _ _ _ _ _ _ Hval) in Hrun.
  cbv zeta in Hrun.
  rewrite bool_decide_eq_false_2 in Hrun by (rewrite Hmiss; by intros [? ?]).
  apply run_pipeline_Ok_inv
    in Hrun as (video_path & video & fs_sub & rendered & output_filename
                & _ & Hup & _ & -> & -> & _).
  exists output_filename, (<[output_path_of job_id := rendered]> fs_sub).
  split_and!; [done..|]. by rewrite lookup_insert_eq.
Qed.

Lemma cache_record_after_success_witness :
  ∃ output_filename fs_up,
    VStr example_ref = VStr output_filename
    ∧ upload_to_gcs good_world fs_up (output_path_of "job1")
        (GCP_BUCKET_NAME good_world) = Ok output_filename
    ∧ good_run.1.2 !! example_cache_path
      = Some (json_dumps false (VDict [("output_filename", VStr example_ref)])).
Proof.
  apply (cache_record_after_success good_world example_file_url
           example_caption_url "srt" example_options "job1" ∅ good_run.1.2
           (VStr example_ref) good_run.2).
  - reflexivity.
  - exact good_run_eq.
Defined.

(* ================================================================== *)
(** * Nothing is deleted before the upload has succeeded *)

Lemma keeps_files_bind {A B} (m : M A) (f : A → M B) :
  keeps_files m → (∀ a, keeps_files (f a)) → keeps_files (m ≫= f).
Proof.
  intros Hm Hf fs p Hp. specialize (Hm fs p Hp).
  unfold mbind, M_mbind, M_bind.
  destruct (m fs) as [[[a|e] fs1] t1]; [|done].
  specialize (Hf a fs1 p Hm). by destruct (f a fs1) as [[r fs2] t2].
Qed.

Lemma keeps_files_bind_lift {A B} (r : result A) (f : A → M B) :
  (∀ a, r = Ok a → keeps_files (f a)) → keeps_files (lift r ≫= f).
Proof.
  intros Hf fs p Hp. destruct r as [a|e]; [|done].
  rewrite run_bind_lift_Ok. by apply Hf.
Qed.

Lemma keeps_files_same_files {A} (m : M A) :
  (∀ fs, (m fs).1.2 = fs) → keeps_files m.
Proof. intros Hm fs p Hp. by rewrite Hm. Qed.

Lemma keeps_files_put_file q text : keeps_files (put_file q text).
Proof.
  intros fs p Hp. unfold put_file. simpl.
  destruct (decide (q = p)) as [->|Hne].
  - rewrite lookup_insert_eq. by eexists.
  - by rewrite lookup_insert_ne.
Qed.

Lemma keeps_files_write_file w q text : keeps_files (write_file w q text).
Proof.
  intros fs p Hp. unfold write_file. destruct (os_refuses w OpenWrite q); [done|].
  destruct (write_fails w q text) as [rest|]; [|by apply keeps_files_put_file].
  simpl. destruct (decide (q = p)) as [->|Hne].
  - rewrite lookup_insert_eq. by eexists.
  - by rewrite lookup_insert_ne.
Qed.

Lemma keeps_files_materialize_subtitle w caption_srt caption_type caption_style
    one_word_highlight srt_path :
  keeps_files (materialize_subtitle w caption_srt caption_type caption_style
                 one_word_highlight srt_path).
Proof.
  unfold materialize_subtitle.
  repeat first
    [ apply keeps_files_write_file
    | apply keeps_files_same_files; by intros
    | apply keeps_files_bind; [|intros ?]
    | case_match ].
Qed.

Lemma keeps_files_select_font w job_id font_name :
  keeps_files (select_font w job_id font_name).
Proof.
  apply keeps_files_same_files. intros fs.
  destruct (select_font w job_id font_name fs) as [[r fs1] t1] eqn:Hsel.
  by apply select_font_files in Hsel as [-> _].
Qed.

Lemma keeps_files_read_cache w cache_path : keeps_files (read_cache w cache_path).
Proof.
  apply keeps_files_same_files. intros fs. by rewrite read_cache_run.
Qed.

(** When the upload does not succeed, the call deletes nothing: every file
    that was in the working directory before the call is there after it. *)
Theorem nothing_deleted_without_upload (w : World)
    (file_url caption_srt caption_type : string)
    (options : list (string * value)) (job_id : string) (fs : files)
    (p : string) :
  (∀ fs_up output_filename,
     upload_to_gcs w fs_up (output_path_of job_id) (GCP_BUCKET_NAME w)
     ≠ Ok output_filename) →
  is_Some (fs !! p) →
  is_Some ((process_captioning w file_url caption_srt caption_type options
              job_id fs).1.2 !! p).
Proof.
  intros Hup. revert fs p.
  change (keeps_files (process_captioning w file_url caption_srt caption_type
                         options job_id)).
  unfold process_captioning, log_and_reraise. cbv zeta.
  apply keeps_files_bind; [apply keeps_files_same_files; by intros|intros _].
  apply keeps_files_bind; [apply keeps_files_same_files; by intros|intros [|]].
  { apply keeps_files_read_cache. }
  unfold run_pipeline. cbv zeta.
  apply keeps_files_bind; [apply keeps_files_same_files; by intros|intros _].
  apply keeps_files_bind_lift. intros downloaded _.
  apply keeps_files_bind; [apply keeps_files_put_file|intros _].
  apply keeps_files_bind; [apply keeps_files_materialize_subtitle|intros _].
  apply keeps_files_bind; [apply keeps_files_select_font|intros _].
  apply keeps_files_bind; [apply keeps_files_same_files; by intros|intros _].
  apply keeps_files_bind; [apply keeps_files_same_files; by intros|intros fs1].
  apply keeps_files_bind_lift. intros total_frames _.
  apply keeps_files_bind; [apply keeps_files_same_files; by intros|intros _].
  apply keeps_files_bind_lift. intros rendered _.
  apply keeps_files_bind; [apply keeps_files_put_file|intros _].
  apply keeps_files_bind; [apply keeps_files_same_files; by intros|intros _].
  apply keeps_files_bind; [apply keeps_files_same_files; by intros|intros fs2].
  apply keeps_files_bind_lift. intros output_filename Hok.
  by destruct (Hup fs2 output_filename).
Qed.

Lemma nothing_deleted_without_upload_witness :
  is_Some ((process_captioning upload_fails_world example_file_url
              example_caption_url "srt" example_options "job1"
              {[ "/tmp/job1.srt" := "an older file" ]}).1.2 !! "/tmp/job1.srt").
Proof.
  apply (nothing_deleted_without_upload upload_fails_world example_file_url
           example_caption_url "srt" example_options "job1"
           {[ "/tmp/job1.srt" := "an older file" ]} "/tmp/job1.srt").
  - intros fs_up output_filename. discriminate.
  - rewrite lookup_singleton_eq. by eexists.
Defined.
